(** * Reservation and stock-mutation engine of the inventory service

    A shallow embedding of [src/services/inventory_service.py] together with
    the collaborators it drives: the SQLAlchemy session (tables [inventory]
    and [reservations], the transaction boundary), the Redis lock manager,
    the event service, the exception hierarchy of [src/exceptions.py], the
    exception-to-HTTP translation of [src/utils/error_utils.py], the routes
    of [src/api/inventory.py] and the request schemas of
    [src/schemas/inventory_schemas.py].

    Every coroutine of the service is a computation in a state-and-exception
    monad over a [World]; [await] is sequencing.  Integers are Python
    integers ([Z]); instants are seconds on the UTC clock ([Z]). *)

From Stdlib Require Import Ascii.
From stdpp Require Import gmap strings list pretty.

Local Open Scope Z_scope.

(** ** Data model ([src/models/inventory.py], [src/models/database.py]) *)

Inductive ReservationStatus :=
  | PENDING | CONFIRMED | CONSUMED | CANCELLED | EXPIRED.

Global Instance ReservationStatus_eq_dec : EqDecision ReservationStatus.
Proof. solve_decision. Defined.

(** [a == b] on statuses. *)
Definition status_eqb (a b : ReservationStatus) : bool :=
  match a, b with
  | PENDING, PENDING | CONFIRMED, CONFIRMED | CONSUMED, CONSUMED
  | CANCELLED, CANCELLED | EXPIRED, EXPIRED => true
  | _, _ => false
  end.

(** A row of table [inventory].  The columns [product_id] and [store_id]
    carry the unique index [idx_inventory_product_store]; they are the key
    under which the row is stored (see [Tables]). *)
Record InventoryDB := mkInventoryDB {
  inv_id : string;
  available_quantity : Z;
  reserved_quantity : Z;
  total_quantity : Z;
  version : Z;
  last_updated : Z
}.

(** A row of table [reservations]; the primary key [id] is the key of the
    table. *)
Record ReservationDB := mkReservationDB {
  order_id : string;
  product_id : string;
  store_id : string;
  quantity : Z;
  status : ReservationStatus;
  expires_at : Z;
  created_at : Z;
  confirmed_at : option Z;
  cancelled_at : option Z
}.

Record ReservationRequest := mkReservationRequest {
  req_order_id : string;
  req_product_id : string;
  req_store_id : string;
  req_quantity : Z;
  req_ttl_minutes : Z
}.

Record ReservationResponse := mkReservationResponse {
  resp_reservation_id : string;
  resp_status : ReservationStatus;
  resp_expires_at : Z;
  resp_message : string
}.

Record StockUpdate := mkStockUpdate {
  su_product_id : string;
  su_store_id : string;
  quantity_change : Z;
  reason : string;
  reference_id : option string
}.

(** The field constraints pydantic enforces when a [ReservationRequest] is
    built: [quantity > 0] and [1 <= ttl_minutes <= 60]. *)
Definition valid_request (r : ReservationRequest) : bool :=
  (0 <? req_quantity r) && (1 <=? req_ttl_minutes r) && (req_ttl_minutes r <=? 60).

(** The validation pydantic runs when [get_inventory] builds the [Inventory]
    model from a row: the three counters are [ge=0], [version] is [ge=1] and
    [validate_total_quantity] demands [total = available + reserved]. *)
Definition validate_inventory (r : InventoryDB) : bool :=
  (0 <=? available_quantity r) && (0 <=? reserved_quantity r)
  && (0 <=? total_quantity r) && (1 <=? version r)
  && (total_quantity r =? available_quantity r + reserved_quantity r).

(** ** Exceptions ([src/exceptions.py]) *)

(** Modelled from the spec: [src/constants.py] is not in the tree; the
    response codes follow the error taxonomy of the specification
    (400 business, 422 validation, 404 not found, 409 conflict, 500 server,
    503 external service). *)
Definition RESP_BAD_REQUEST : Z := 400.
Definition RESP_UNPROCESSABLE_ENTITY : Z := 422.
Definition RESP_NOT_FOUND : Z := 404.
Definition RESP_CONFLICT : Z := 409.
Definition RESP_INTERNAL_SERVER_ERROR : Z := 500.
Definition RESP_SERVICE_UNAVAILABLE : Z := 503.

(** The symbolic constants of [src/constants.py] that name error types and
    error codes; only their identity matters. *)
Inductive ErrorType :=
  | BUSINESS_ERROR | VALIDATION_ERROR | NOT_FOUND_ERROR | CONFLICT_ERROR
  | SERVER_ERROR | EXTERNAL_SERVICE_ERROR.

Inductive ErrorCode :=
  | INSUFFICIENT_STOCK | INVENTORY_NOT_FOUND | PRODUCT_NOT_FOUND
  | STORE_NOT_FOUND | RESERVATION_NOT_FOUND | RESERVATION_EXPIRED
  | RESERVATION_ALREADY_CONFIRMED | OPTIMISTIC_LOCK_CONFLICT
  | DISTRIBUTED_LOCK_FAILED | INVALID_RESERVATION_STATUS.

(** The six direct subclasses of [InventoryServiceBaseException]. *)
Inductive BaseClass :=
  | BusinessError | ValidationError | NotFoundError | ConflictError
  | ServerError | ExternalServiceError.

(** Everything the engine can raise.  The first nine constructors are the
    leaf classes of [src/exceptions.py] the service imports; the others are
    the plain [Exception(msg)] several paths raise and the library or
    interpreter exceptions that can cross the service. *)
Inductive PyExn :=
  | InsufficientStockError (available requested : Z)
  | InventoryNotFoundError (pid sid : string)
  | ProductNotFoundError (pid : string)
  | ReservationNotFoundError (rid : string)
  | ReservationExpiredError (rid : string)
  | ReservationAlreadyConfirmedError (rid : string)
  | OptimisticLockConflictError (resource : string)
  | DistributedLockFailedError (lock_key : string)
  | InvalidReservationStatusError (rid : string) (current expected : ReservationStatus)
  | PlainException (msg : string)
  | AttributeError (attr : string)
  | NameError (name : string)
  | IntegrityError (pk : string)
  | PydanticValidationError
  | BrokerError
  | HTTPException (status_code : Z) (detail : string).

Global Instance PyExn_eq_dec : EqDecision PyExn.
Proof. solve_decision. Defined.

(** [isinstance(ex, InventoryServiceBaseException)], with the base class
    the leaf derives from. *)
Definition base_class (e : PyExn) : option BaseClass :=
  match e with
  | InsufficientStockError _ _ => Some BusinessError
  | InventoryNotFoundError _ _ => Some NotFoundError
  | ProductNotFoundError _ => Some NotFoundError
  | ReservationNotFoundError _ => Some NotFoundError
  | ReservationExpiredError _ => Some ConflictError
  | ReservationAlreadyConfirmedError _ => Some ConflictError
  | OptimisticLockConflictError _ => Some ConflictError
  | DistributedLockFailedError _ => Some ExternalServiceError
  | InvalidReservationStatusError _ _ _ => Some BusinessError
  | _ => None
  end.

(** The [status_code] / [error_type] each base-class constructor passes to
    [InventoryServiceBaseException.__init__]. *)
Definition class_status_code (c : BaseClass) : Z :=
  match c with
  | BusinessError => RESP_BAD_REQUEST
  | ValidationError => RESP_UNPROCESSABLE_ENTITY
  | NotFoundError => RESP_NOT_FOUND
  | ConflictError => RESP_CONFLICT
  | ServerError => RESP_INTERNAL_SERVER_ERROR
  | ExternalServiceError => RESP_SERVICE_UNAVAILABLE
  end.

Definition class_error_type (c : BaseClass) : ErrorType :=
  match c with
  | BusinessError => BUSINESS_ERROR
  | ValidationError => VALIDATION_ERROR
  | NotFoundError => NOT_FOUND_ERROR
  | ConflictError => CONFLICT_ERROR
  | ServerError => SERVER_ERROR
  | ExternalServiceError => EXTERNAL_SERVICE_ERROR
  end.

Definition status_code_of (e : PyExn) : option Z :=
  class_status_code <$> base_class e.

Definition error_type_of (e : PyExn) : option ErrorType :=
  class_error_type <$> base_class e.

Definition error_code_of (e : PyExn) : option ErrorCode :=
  match e with
  | InsufficientStockError _ _ => Some INSUFFICIENT_STOCK
  | InventoryNotFoundError _ _ => Some INVENTORY_NOT_FOUND
  | ProductNotFoundError _ => Some PRODUCT_NOT_FOUND
  | ReservationNotFoundError _ => Some RESERVATION_NOT_FOUND
  | ReservationExpiredError _ => Some RESERVATION_EXPIRED
  | ReservationAlreadyConfirmedError _ => Some RESERVATION_ALREADY_CONFIRMED
  | OptimisticLockConflictError _ => Some OPTIMISTIC_LOCK_CONFLICT
  | DistributedLockFailedError _ => Some DISTRIBUTED_LOCK_FAILED
  | InvalidReservationStatusError _ _ _ => Some INVALID_RESERVATION_STATUS
  | _ => None
  end.

(** A status read from its column, a plain string, as an f-string prints
    it. *)
Definition status_str (s : ReservationStatus) : string :=
  match s with
  | PENDING => "pending" | CONFIRMED => "confirmed" | CONSUMED => "consumed"
  | CANCELLED => "cancelled" | EXPIRED => "expired"
  end.

(** A member of the [ReservationStatus] enumeration as an f-string prints
    it ([Enum.__str__], Python 3.11 and later). *)
Definition status_member_str (s : ReservationStatus) : string :=
  match s with
  | PENDING => "ReservationStatus.PENDING"
  | CONFIRMED => "ReservationStatus.CONFIRMED"
  | CONSUMED => "ReservationStatus.CONSUMED"
  | CANCELLED => "ReservationStatus.CANCELLED"
  | EXPIRED => "ReservationStatus.EXPIRED"
  end.

(** [ex.error_msg] for the service exceptions and [str(ex)] for
    [Exception(msg)]; the texts given to the interpreter and library
    exceptions stand for whatever those print. *)
Definition error_msg (e : PyExn) : string :=
  match e with
  | InsufficientStockError a r =>
      "Insufficient stock available. Available: " +:+ pretty a
      +:+ ", Requested: " +:+ pretty r
  | InventoryNotFoundError p s =>
      "Inventory not found for product " +:+ p +:+ " in store " +:+ s
  | ProductNotFoundError p => "Product not found: " +:+ p
  | ReservationNotFoundError r => "Reservation not found: " +:+ r
  | ReservationExpiredError r => "Reservation " +:+ r +:+ " has expired"
  | ReservationAlreadyConfirmedError r =>
      "Reservation " +:+ r +:+ " is already confirmed"
  | OptimisticLockConflictError r =>
      "Optimistic lock conflict on " +:+ r
      +:+ ". Resource was modified by another operation"
  | DistributedLockFailedError k =>
      "Could not acquire distributed lock: " +:+ k
  | InvalidReservationStatusError r c x =>
      "Invalid reservation status for " +:+ r +:+ ". Current: "
      +:+ status_str c +:+ ", Expected: " +:+ status_member_str x
  | PlainException m => m
  | AttributeError a => "'InventoryService' object has no attribute '" +:+ a +:+ "'"
  | NameError n => "name '" +:+ n +:+ "' is not defined"
  | IntegrityError k => "UNIQUE constraint failed: reservations.id " +:+ k
  | PydanticValidationError => "validation error for Inventory"
  | BrokerError => "Event bus unavailable"
  | HTTPException _ d => d
  end.

(** ** The world the engine runs in *)

(** The two tables the engine touches.  [inventory] is keyed by
    [(product_id, store_id)], [reservations] by [id]. *)
Record Tables := mkTables {
  inventory : gmap (string * string) InventoryDB;
  reservations : gmap string ReservationDB
}.

(** A column on the right-hand side of [.values(...)]: absent from the
    statement, [Column + d], or a literal. *)
Inductive ColExpr :=
  | Keep
  | Plus (d : Z)
  | Const (v : Z).

(** [update(InventoryDB).where(and_(product_id == p, store_id == s
    [, version == v])).values(...)].  Every inventory UPDATE of the service
    assigns [last_updated]. *)
Record InventoryUpdate := mkInventoryUpdate {
  where_product_id : string;
  where_store_id : string;
  where_version : option Z;
  set_available_quantity : ColExpr;
  set_reserved_quantity : ColExpr;
  set_total_quantity : ColExpr;
  set_version : ColExpr;
  set_last_updated : Z
}.

Inductive PayloadValue :=
  | PStr (s : string)
  | PInt (n : Z)
  | PTime (t : Z)
  | PNone.

(** [EventMessage.to_dict()]; [source] and [version] are the defaults
    ["inventory_service"] and ["1.0"]. *)
Record EventMessage := mkEventMessage {
  event_type : string;
  payload : list (string * PayloadValue);
  timestamp : Z;
  source : string;
  msg_version : string
}.

Inductive LogLevel := INFO | ERROR.

(** What the engine does to its collaborators, in program order. *)
Inductive Effect :=
  | AcquireLock (key : string) (acquired : bool)
  | ReleaseLock (key : string)
  | SelectInventory (pid sid : string)
  | SelectReservation (rid : string)
  | InsertReservation (rid : string)
  | UpdateInventory (u : InventoryUpdate) (rowcount : Z)
  | UpdateReservation (rid : string) (s : ReservationStatus)
  | Commit
  | Rollback
  | Publish (topic : string) (ev : string) (delivered : bool)
  | Log (lvl : LogLevel) (msg : string).

(** - [committed]: the durable state of the database;
    - [session]: what the request's [AsyncSession] sees, the committed state
      plus its own uncommitted statements;
    - [locks]: the keys currently set in the lock service;
    - [lock_service_up], [event_bus_up]: whether a call to the lock service
      or to the broker goes through;
    - [published]: the messages delivered to the broker, latest first;
    - [now]: the reading of [datetime.utcnow()];
    - [uuid_source], [uuid_counter]: the identifiers [uuid.uuid4()] hands
      out, in order, and how many of them have been drawn;
    - [trace]: the effects so far, latest first.

    The expiry of a lock after its TTL is a matter of real time and is not
    part of the model. *)
Record World := mkWorld {
  committed : Tables;
  session : Tables;
  locks : gset string;
  lock_service_up : bool;
  event_bus_up : bool;
  published : list (string * EventMessage);
  now : Z;
  uuid_source : nat -> string;
  uuid_counter : nat;
  trace : list Effect
}.

(** ** The monad of coroutines *)

Inductive Outcome (A : Type) :=
  | Return (a : A)
  | Raise (e : PyExn).
Arguments Return {A} a.
Arguments Raise {A} e.

Definition M (A : Type) : Type := World -> Outcome A * World.

Definition ret {A} (a : A) : M A := fun w => (Return a, w).

Definition bind {A B} (m : M A) (k : A -> M B) : M B := fun w =>
  match m w with
  | (Return a, w') => k a w'
  | (Raise e, w') => (Raise e, w')
  end.

Definition raise {A} (e : PyExn) : M A := fun w => (Raise e, w).

Notation "'let!' x ':=' c1 'in' c2" := (bind c1 (fun x => c2))
  (at level 10, x name, c1 at level 100, c2 at level 200).
Notation "c1 ';;;' c2" := (bind c1 (fun _ => c2))
  (at level 100, c2 at level 200, right associativity).

Definition get : M World := fun w => (Return w, w).
Definition modify (f : World -> World) : M unit := fun w => (Return tt, f w).

(** [try: body / except Exception as e: handler(e)]. *)
Definition try_except {A} (body : M A) (handler : PyExn -> M A) : M A := fun w =>
  match body w with
  | (Return a, w') => (Return a, w')
  | (Raise e, w') => handler e w'
  end.

(** [try: body / finally: fin]: [fin] runs on every exit; when it raises,
    its exception replaces the outcome of [body]. *)
Definition try_finally {A} (body : M A) (fin : M unit) : M A := fun w =>
  match body w with
  | (r, w') =>
      match fin w' with
      | (Return _, w'') => (r, w'')
      | (Raise e, w'') => (Raise e, w'')
      end
  end.

Definition when (b : bool) (m : M unit) : M unit := if b then m else ret tt.

Definition with_committed (f : Tables -> Tables) (w : World) : World :=
  mkWorld (f (committed w)) (session w) (locks w) (lock_service_up w)
          (event_bus_up w) (published w) (now w) (uuid_source w) (uuid_counter w) (trace w).

Definition with_session (f : Tables -> Tables) (w : World) : World :=
  mkWorld (committed w) (f (session w)) (locks w) (lock_service_up w)
          (event_bus_up w) (published w) (now w) (uuid_source w) (uuid_counter w) (trace w).

Definition with_locks (f : gset string -> gset string) (w : World) : World :=
  mkWorld (committed w) (session w) (f (locks w)) (lock_service_up w)
          (event_bus_up w) (published w) (now w) (uuid_source w) (uuid_counter w) (trace w).

Definition with_published
    (f : list (string * EventMessage) -> list (string * EventMessage))
    (w : World) : World :=
  mkWorld (committed w) (session w) (locks w) (lock_service_up w)
          (event_bus_up w) (f (published w)) (now w) (uuid_source w) (uuid_counter w) (trace w).

Definition with_uuid_counter (f : nat -> nat) (w : World) : World :=
  mkWorld (committed w) (session w) (locks w) (lock_service_up w)
          (event_bus_up w) (published w) (now w) (uuid_source w) (f (uuid_counter w)) (trace w).

Definition with_now (f : Z -> Z) (w : World) : World :=
  mkWorld (committed w) (session w) (locks w) (lock_service_up w)
          (event_bus_up w) (published w) (f (now w)) (uuid_source w) (uuid_counter w) (trace w).

Definition with_trace (f : list Effect -> list Effect) (w : World) : World :=
  mkWorld (committed w) (session w) (locks w) (lock_service_up w)
          (event_bus_up w) (published w) (now w) (uuid_source w) (uuid_counter w) (f (trace w)).

Definition emit (e : Effect) : M unit := modify (with_trace (cons e)).

Definition logger (lvl : LogLevel) (msg : string) : M unit := emit (Log lvl msg).

Definition utcnow : M Z := fun w => (Return (now w), w).

(** [str(uuid.uuid4())], the column default of [ReservationDB.id]: the
    next identifier of the world's source. *)
Definition next_uuid (w : World) : string := uuid_source w (uuid_counter w).

Definition uuid4 : M string := fun w =>
  (Return (next_uuid w), with_uuid_counter S w).

(** ** The database session *)

Definition eval_col (e : ColExpr) (old : Z) : Z :=
  match e with
  | Keep => old
  | Plus d => old + d
  | Const v => v
  end.

Definition apply_values (u : InventoryUpdate) (r : InventoryDB) : InventoryDB :=
  mkInventoryDB (inv_id r)
    (eval_col (set_available_quantity u) (available_quantity r))
    (eval_col (set_reserved_quantity u) (reserved_quantity r))
    (eval_col (set_total_quantity u) (total_quantity r))
    (eval_col (set_version u) (version r))
    (set_last_updated u).

(** The WHERE clause on the row found under [(product_id, store_id)]. *)
Definition where_matches (u : InventoryUpdate) (r : InventoryDB) : bool :=
  match where_version u with
  | None => true
  | Some v => version r =? v
  end.

(** One inventory UPDATE on the tables: the new tables and [rowcount]. *)
Definition run_inventory_update (u : InventoryUpdate) (t : Tables) : Tables * Z :=
  match inventory t !! (where_product_id u, where_store_id u) with
  | Some r =>
      if where_matches u r
      then (mkTables (<[(where_product_id u, where_store_id u) := apply_values u r]>
                        (inventory t))
                     (reservations t), 1)
      else (t, 0)
  | None => (t, 0)
  end.

(** [select(InventoryDB).where(product_id == p, store_id == s)] followed by
    [scalar_one_or_none()]. *)
Definition select_inventory (pid sid : string) : M (option InventoryDB) :=
  emit (SelectInventory pid sid);;;
  let! w := get in
  ret (inventory (session w) !! (pid, sid)).

(** [select(ReservationDB).where(id == rid)], [scalar_one_or_none()]. *)
Definition select_reservation (rid : string) : M (option ReservationDB) :=
  emit (SelectReservation rid);;;
  let! w := get in
  ret (reservations (session w) !! rid).

(** [await self.db.execute(update(InventoryDB)...)], giving [rowcount].
    The values bound and the values computed are taken to be integers the
    column holds ([fits_integer]); the [OverflowError] of the driver on a
    bound value outside of that range is not modelled. *)
Definition execute_update_inventory (u : InventoryUpdate) : M Z := fun w =>
  let '(t, n) := run_inventory_update u (session w) in
  (Return n, with_trace (cons (UpdateInventory u n)) (with_session (fun _ => t) w)).

(** [update(ReservationDB).where(id == rid).values(status=s, ...)]: the
    columns assigned are [status] and, when given, [confirmed_at] or
    [cancelled_at]. *)
Definition set_reservation_status (s : ReservationStatus)
    (confirmed cancelled : option Z) (r : ReservationDB) : ReservationDB :=
  mkReservationDB (order_id r) (product_id r) (store_id r) (quantity r) s
    (expires_at r) (created_at r)
    (match confirmed with Some t => Some t | None => confirmed_at r end)
    (match cancelled with Some t => Some t | None => cancelled_at r end).

Definition execute_update_reservation (rid : string) (s : ReservationStatus)
    (confirmed cancelled : option Z) : M unit :=
  emit (UpdateReservation rid s);;;
  modify (with_session (fun t =>
    mkTables (inventory t)
             (alter (set_reservation_status s confirmed cancelled) rid (reservations t)))).

(** [self.db.add(reservation_db)]: the INSERT goes out with the autoflush
    of the next statement, nothing of the service runs in between.  The
    primary key is drawn from [uuid4]; a key already in the table violates
    the primary-key constraint. *)
Definition db_add (r : ReservationDB) : M string :=
  let! rid := uuid4 in
  let! w := get in
  match reservations (session w) !! rid with
  | Some _ => raise (IntegrityError rid)
  | None =>
      emit (InsertReservation rid);;;
      modify (with_session (fun t =>
        mkTables (inventory t) (<[rid := r]> (reservations t))));;;
      ret rid
  end.

Definition db_commit : M unit :=
  emit Commit;;;
  modify (fun w => with_committed (fun _ => session w) w).

Definition db_rollback : M unit :=
  emit Rollback;;;
  modify (fun w => with_session (fun _ => committed w) w).

(** ** The lock manager ([RedisLockManager]) *)

(** [SET key "locked" NX EX ttl]; any failure of the client is logged and
    reported as [False]. *)
Definition acquire_lock (key : string) (ttl : Z) : M bool :=
  let! w := get in
  if lock_service_up w then
    if decide (key ∈ locks w) then
      emit (AcquireLock key false);;; ret false
    else
      emit (AcquireLock key true);;;
      modify (with_locks (fun l => {[key]} ∪ l));;;
      ret true
  else
    logger ERROR ("Redis lock acquisition failed for key " +:+ key);;;
    emit (AcquireLock key false);;;
    ret false.

(** [DEL key], whoever holds it; a failure is logged, never raised. *)
Definition release_lock (key : string) : M unit :=
  let! w := get in
  emit (ReleaseLock key);;;
  if lock_service_up w then
    modify (with_locks (fun l => l ∖ {[key]}))
  else
    logger ERROR ("Redis lock release failed for key " +:+ key).

(** ** The event bus and the event service *)

(** [RedisEventBus.publish]: on failure log and re-raise. *)
Definition bus_publish (topic : string) (m : EventMessage) : M unit :=
  let! w := get in
  if event_bus_up w then
    emit (Publish topic (event_type m) true);;;
    modify (with_published (cons (topic, m)))
  else
    emit (Publish topic (event_type m) false);;;
    logger ERROR ("Failed to publish message to topic " +:+ topic);;;
    raise BrokerError.

(** [EventService.publish_event] with the default topic and source. *)
Definition publish_event (ev : string) (pl : list (string * PayloadValue)) : M unit :=
  try_except
    (let! t := utcnow in
     bus_publish "inventory_events"
       (mkEventMessage ev pl t "inventory_service" "1.0");;;
     logger INFO "Event published successfully")
    (fun e =>
       logger ERROR "Failed to publish event";;;
       raise e).

(** ** The service ([InventoryService]) *)

Definition lock_key_of (pid sid : string) : string :=
  "inventory_lock:" +:+ pid +:+ ":" +:+ sid.

Definition resource_of (pid sid : string) : string :=
  "inventory:" +:+ pid +:+ ":" +:+ sid.

(** [get_inventory]: the row, passed through the [Inventory] model. *)
Definition get_inventory (pid sid : string) : M (option InventoryDB) :=
  let! row := select_inventory pid sid in
  match row with
  | None => ret None
  | Some r =>
      if validate_inventory r then ret (Some r) else raise PydanticValidationError
  end.

(** The [finally] block shared by the three locking operations. *)
Definition release_quietly (lock_key : string) : M unit :=
  try_except (release_lock lock_key)
    (fun _ => logger ERROR ("Failed to release distributed lock " +:+ lock_key)).

Definition reservation_payload (rid : string) (r : ReservationDB)
    : list (string * PayloadValue) :=
  [("reservation_id", PStr rid); ("order_id", PStr (order_id r));
   ("product_id", PStr (product_id r)); ("store_id", PStr (store_id r));
   ("quantity", PInt (quantity r))].

(** *** The inventory UPDATE statements, one per operation *)

Definition reserve_update (request : ReservationRequest) (inv : InventoryDB)
    (t : Z) : InventoryUpdate :=
  mkInventoryUpdate (req_product_id request) (req_store_id request)
    (Some (version inv))
    (Plus (- req_quantity request)) (Plus (req_quantity request)) Keep
    (Plus 1) t.

Definition consume_update (r : ReservationDB) (inv : InventoryDB) (t : Z)
    : InventoryUpdate :=
  mkInventoryUpdate (product_id r) (store_id r)
    (Some (version inv))
    Keep (Plus (- quantity r)) (Plus (- quantity r))
    (Plus 1) t.

Definition cancel_update (r : ReservationDB) (t : Z) : InventoryUpdate :=
  mkInventoryUpdate (product_id r) (store_id r)
    None
    (Plus (quantity r)) (Plus (- quantity r)) Keep
    (Plus 1) t.

Definition stock_update (su : StockUpdate) (inv : InventoryDB)
    (new_available t : Z) : InventoryUpdate :=
  mkInventoryUpdate (su_product_id su) (su_store_id su)
    (Some (version inv))
    (Const new_available) Keep (Plus (quantity_change su))
    (Plus 1) t.

Definition expire_update (r : ReservationDB) (t : Z) : InventoryUpdate :=
  mkInventoryUpdate (product_id r) (store_id r)
    None
    (Plus (quantity r)) (Plus (- quantity r)) Keep
    Keep t.

(** *** [reserve_stock] *)

Definition reserve_stock (request : ReservationRequest) : M ReservationResponse :=
  let pid := req_product_id request in
  let sid := req_store_id request in
  let lock_key := lock_key_of pid sid in
  try_finally
    (try_except
       (let! acquired := acquire_lock lock_key 30 in
        if negb acquired then
          logger ERROR ("Could not acquire distributed lock for " +:+ lock_key);;;
          raise (DistributedLockFailedError lock_key)
        else
        let! inventory := get_inventory pid sid in
        match inventory with
        | None => raise (InventoryNotFoundError pid sid)
        | Some inventory =>
            if available_quantity inventory <? req_quantity request then
              raise (InsufficientStockError (available_quantity inventory)
                                            (req_quantity request))
            else
            let! t0 := utcnow in
            let expires := t0 + 60 * req_ttl_minutes request in
            let! rid := db_add (mkReservationDB (req_order_id request) pid sid
                                  (req_quantity request) PENDING expires t0
                                  None None) in
            let! t1 := utcnow in
            let! rowcount :=
              execute_update_inventory (reserve_update request inventory t1) in
            if rowcount =? 0 then
              raise (OptimisticLockConflictError (resource_of pid sid))
            else
            publish_event "reservation_created"
              [("reservation_id", PStr rid);
               ("order_id", PStr (req_order_id request));
               ("product_id", PStr pid); ("store_id", PStr sid);
               ("quantity", PInt (req_quantity request));
               ("expires_at", PTime expires)];;;
            db_commit;;;
            logger INFO "Stock reserved successfully";;;
            ret (mkReservationResponse rid PENDING expires
                   "Stock reserved successfully")
        end)
       (fun e =>
          db_rollback;;;
          logger ERROR "Failed to reserve stock";;;
          raise e))
    (release_quietly lock_key).

(** *** [_expire_reservation]

    The last statement calls [self._publish_event], a name the class does
    not define: evaluating the attribute raises [AttributeError]. *)
Definition _expire_reservation (reservation_id : string) : M unit :=
  let! reservation := select_reservation reservation_id in
  match reservation with
  | None => ret tt
  | Some reservation =>
      if negb (status_eqb (status reservation) PENDING) then ret tt
      else
      let! t := utcnow in
      execute_update_inventory (expire_update reservation t);;;
      execute_update_reservation reservation_id EXPIRED None None;;;
      raise (AttributeError "_publish_event")
  end.

(** *** [confirm_reservation] *)

Definition confirm_reservation (reservation_id : string) : M bool :=
  let! reservation := select_reservation reservation_id in
  match reservation with
  | None => raise (ReservationNotFoundError reservation_id)
  | Some reservation =>
      if negb (status_eqb (status reservation) PENDING) then
        raise (InvalidReservationStatusError reservation_id
                 (status reservation) PENDING)
      else
      let! t := utcnow in
      if expires_at reservation <? t then
        _expire_reservation reservation_id;;;
        raise (ReservationExpiredError reservation_id)
      else
      let! t' := utcnow in
      execute_update_reservation reservation_id CONFIRMED (Some t') None;;;
      publish_event "reservation_confirmed"
        (reservation_payload reservation_id reservation);;;
      db_commit;;;
      logger INFO "Reservation confirmed";;;
      ret true
  end.

(** *** [consume_reservation] *)

Definition consume_reservation (reservation_id : string) : M bool :=
  let! reservation := select_reservation reservation_id in
  match reservation with
  | None => raise (PlainException "Reservation not found")
  | Some reservation =>
      if negb (status_eqb (status reservation) CONFIRMED) then
        raise (PlainException "Reservation must be confirmed before consumption")
      else
      let! inventory :=
        select_inventory (product_id reservation) (store_id reservation) in
      match inventory with
      | None => raise (PlainException "Inventory not found")
      | Some inventory =>
          let! t := utcnow in
          let! rowcount :=
            execute_update_inventory (consume_update reservation inventory t) in
          if rowcount =? 0 then
            raise (PlainException
              "Optimistic lock conflict - inventory was modified by another operation")
          else
          execute_update_reservation reservation_id CONSUMED None None;;;
          publish_event "reservation_consumed"
            (reservation_payload reservation_id reservation);;;
          db_commit;;;
          logger INFO "Reservation consumed - stock updated";;;
          ret true
      end
  end.

(** *** [cancel_reservation] *)

(** [status in [ReservationStatus.PENDING, ReservationStatus.CONFIRMED]] *)
Definition cancellable (s : ReservationStatus) : bool :=
  status_eqb s PENDING || status_eqb s CONFIRMED.

Definition cancel_reservation (reservation_id : string) : M bool :=
  let! reservation := select_reservation reservation_id in
  match reservation with
  | None => raise (PlainException "Reservation not found")
  | Some reservation =>
      if negb (cancellable (status reservation)) then
        raise (PlainException "Reservation cannot be cancelled")
      else
      let lock_key :=
        lock_key_of (product_id reservation) (store_id reservation) in
      try_finally
        (try_except
           (let! acquired := acquire_lock lock_key 30 in
            if negb acquired then
              raise (PlainException "Could not acquire inventory lock")
            else
            (if cancellable (status reservation) then
               let! t := utcnow in
               let! _ := execute_update_inventory (cancel_update reservation t) in
               ret tt
             else ret tt);;;
            let! t' := utcnow in
            execute_update_reservation reservation_id CANCELLED None (Some t');;;
            publish_event "reservation_cancelled"
              (reservation_payload reservation_id reservation);;;
            db_commit;;;
            logger INFO "Reservation cancelled";;;
            ret true)
           (fun e =>
              db_rollback;;;
              logger ERROR "Failed to cancel reservation";;;
              raise e))
        (release_quietly lock_key)
  end.

(** *** [update_stock] *)

Definition update_stock (su : StockUpdate) : M bool :=
  let pid := su_product_id su in
  let sid := su_store_id su in
  let lock_key := lock_key_of pid sid in
  try_finally
    (try_except
       (let! acquired := acquire_lock lock_key 30 in
        if negb acquired then
          raise (PlainException "Could not acquire inventory lock")
        else
        let! inventory := get_inventory pid sid in
        match inventory with
        | None => raise (PlainException "Inventory not found")
        | Some inventory =>
            let new_available :=
              available_quantity inventory + quantity_change su in
            if new_available <? 0 then
              raise (PlainException "Stock cannot go below zero")
            else
            let! t := utcnow in
            let! rowcount :=
              execute_update_inventory
                (stock_update su inventory new_available t) in
            if rowcount =? 0 then
              raise (OptimisticLockConflictError (resource_of pid sid))
            else
            publish_event "stock_updated"
              [("product_id", PStr pid); ("store_id", PStr sid);
               ("quantity_change", PInt (quantity_change su));
               ("new_available", PInt new_available);
               ("reason", PStr (reason su));
               ("reference_id",
                match reference_id su with Some s => PStr s | None => PNone end)];;;
            db_commit;;;
            logger INFO "Stock updated successfully";;;
            ret true
        end)
       (fun e =>
          db_rollback;;;
          logger ERROR "Failed to update stock";;;
          raise e))
    (release_quietly lock_key).

(** ** The request scope ([get_db]) and the route handlers *)

(** [async with AsyncSessionLocal() as session: ... finally:
    await session.close()]: the request works on a session of its own that
    starts from the committed state; closing it discards whatever was not
    committed. *)
Definition get_db {A} (handler : M A) : M A :=
  modify (fun w => with_session (fun _ => committed w) w);;;
  try_finally handler
    (modify (fun w => with_session (fun _ => committed w) w)).

(** [handle_service_exception]; [SERVER_ERROR] stands in for an empty
    [str(ex)] ([detail=str(ex) or SERVER_ERROR]). *)
Definition handle_service_exception (ex : PyExn) : M PyExn :=
  match status_code_of ex with
  | Some code => ret (HTTPException code (error_msg ex))
  | None =>
      logger ERROR "Unhandled exception type";;;
      ret (HTTPException RESP_INTERNAL_SERVER_ERROR
             (if decide (error_msg ex = "") then "SERVER_ERROR" else error_msg ex))
  end.

(** [raise handle_service_exception(e)]. *)
Definition raise_handled {A} (e : PyExn) : M A :=
  let! h := handle_service_exception e in
  raise h.

(** POST /inventory/reserve *)
Definition api_reserve_stock (request : ReservationRequest) : M ReservationResponse :=
  try_except
    (let! result := reserve_stock request in
     logger INFO "Stock reservation successful";;;
     ret result)
    (fun e =>
       logger ERROR "Stock reservation failed";;;
       raise_handled e).

(** POST /inventory/confirm.  The [except] block formats
    [str(reservation_id)] for its log line, but the handler's parameter is
    [request] and no such name exists in the module: the block raises
    [NameError] before it logs or translates anything. *)
Definition api_confirm_reservation (reservation_id : string) : M string :=
  try_except
    (let! success := confirm_reservation reservation_id in
     if success then
       logger INFO "Reservation confirmed";;;
       ret "Reservation confirmed successfully"
     else raise (HTTPException 400 "Failed to confirm reservation"))
    (fun _ => raise (NameError "reservation_id")).

(** POST /inventory/cancel/{reservation_id} *)
Definition api_cancel_reservation (reservation_id : string) : M string :=
  try_except
    (let! success := cancel_reservation reservation_id in
     if success then
       logger INFO "Reservation cancelled";;;
       ret "Reservation cancelled successfully"
     else raise (HTTPException 400 "Failed to cancel reservation"))
    (fun e =>
       logger ERROR "Reservation cancellation failed";;;
       raise_handled e).

(** POST /inventory/consume *)
Definition api_consume_reservation (reservation_id : string) : M string :=
  try_except
    (let! success := consume_reservation reservation_id in
     if success then ret "Reservation consumed successfully - stock updated"
     else raise (HTTPException 400 "Failed to consume reservation"))
    (fun e =>
       logger ERROR "Error consuming reservation";;;
       raise_handled e).

(** The status line FastAPI answers with: 200 for a returned value, the
    code of a raised [HTTPException], 500 for any other exception. *)
Definition http_status {A} (o : Outcome A) : Z :=
  match o with
  | Return _ => 200
  | Raise (HTTPException code _) => code
  | Raise _ => 500
  end.

(** ** The engine's operations as requests *)

Inductive Op :=
  | Reserve (request : ReservationRequest)
  | Confirm (reservation_id : string)
  | Consume (reservation_id : string)
  | Cancel (reservation_id : string)
  | UpdateStock (su : StockUpdate).

(** The outcome of an operation, forgetting the returned value. *)
Definition forget {A} (m : M A) : M unit := let! _ := m in ret tt.

Definition run_op (o : Op) : M unit :=
  match o with
  | Reserve request => forget (reserve_stock request)
  | Confirm rid => forget (confirm_reservation rid)
  | Consume rid => forget (consume_reservation rid)
  | Cancel rid => forget (cancel_reservation rid)
  | UpdateStock su => forget (update_stock su)
  end.

(** One request from start to end: a fresh session, the operation, the
    session closed. *)
Definition request (o : Op) : M unit := get_db (run_op o).

(** ** Predicates of the specification *)

(** The ledger invariant of one inventory row. *)
Definition row_ok (r : InventoryDB) : Prop :=
  total_quantity r = available_quantity r + reserved_quantity r
  ∧ 0 ≤ available_quantity r ∧ 0 ≤ reserved_quantity r ∧ 0 ≤ total_quantity r.

Definition terminal (s : ReservationStatus) : Prop :=
  s = CONSUMED ∨ s = CANCELLED ∨ s = EXPIRED.

Definition is_acquire (e : Effect) : bool :=
  match e with AcquireLock _ _ => true | _ => false end.

Definition is_inventory_update (e : Effect) : bool :=
  match e with UpdateInventory _ _ => true | _ => false end.

Definition is_lock_call (e : Effect) : bool :=
  match e with AcquireLock _ _ | ReleaseLock _ => true | _ => false end.

Definition is_commit (e : Effect) : bool :=
  match e with Commit => true | _ => false end.

Definition is_delivered (e : Effect) : bool :=
  match e with Publish _ _ true => true | _ => false end.

(** The effects of an execution, oldest first.  No operation reads the
    trace, so the execution is observed from an empty one. *)
Definition effects_of {A} (m : M A) (w : World) : list Effect :=
  rev (trace (m (with_trace (fun _ => []) w)).2).

(** The two stores of the database are the same in both worlds. *)
Definition same_tables (w w' : World) : Prop :=
  committed w' = committed w ∧ session w' = session w.

(** The clock moves on by [dt] seconds between two requests. *)
Definition advance (dt : Z) (w : World) : World := with_now (fun t => t + dt) w.

(** The three transitions a client can ask for on an existing reservation
    and the status each one starts from. *)
Inductive Transition := TConfirm | TConsume | TCancel.

Definition allowed_from (t : Transition) (s : ReservationStatus) : bool :=
  match t with
  | TConfirm => status_eqb s PENDING
  | TConsume => status_eqb s CONFIRMED
  | TCancel => cancellable s
  end.

Definition run_transition (t : Transition) (rid : string) : M unit :=
  match t with
  | TConfirm => forget (confirm_reservation rid)
  | TConsume => forget (consume_reservation rid)
  | TCancel => forget (cancel_reservation rid)
  end.

(** The exception each transition raises on a status it does not start
    from, as written at the three [raise] sites. *)
Definition rejection (t : Transition) (rid : string) (s : ReservationStatus) : PyExn :=
  match t with
  | TConfirm => InvalidReservationStatusError rid s PENDING
  | TConsume => PlainException "Reservation must be confirmed before consumption"
  | TCancel => PlainException "Reservation cannot be cancelled"
  end.

(** The inventory write an operation commits: the row before, the row
    after, and what the operation had checked when it issued the UPDATE. *)
Inductive op_write (w : World) : Op -> string * string -> InventoryDB -> InventoryDB -> Prop :=
  | write_reserve request inv :
      validate_inventory inv = true ->
      req_quantity request ≤ available_quantity inv ->
      op_write w (Reserve request) (req_product_id request, req_store_id request)
        inv (apply_values (reserve_update request inv (now w)) inv)
  | write_consume rid r inv :
      reservations (committed w) !! rid = Some r ->
      status r = CONFIRMED ->
      op_write w (Consume rid) (product_id r, store_id r)
        inv (apply_values (consume_update r inv (now w)) inv)
  | write_cancel rid r inv :
      reservations (committed w) !! rid = Some r ->
      cancellable (status r) = true ->
      op_write w (Cancel rid) (product_id r, store_id r)
        inv (apply_values (cancel_update r (now w)) inv)
  | write_stock su inv :
      validate_inventory inv = true ->
      0 ≤ available_quantity inv + quantity_change su ->
      op_write w (UpdateStock su) (su_product_id su, su_store_id su)
        inv (apply_values
               (stock_update su inv (available_quantity inv + quantity_change su) (now w))
               inv).

(** Every reservation that still holds stock holds a positive quantity that
    the [reserved_quantity] of its inventory row covers. *)
Definition reservations_covered (t : Tables) : Prop :=
  ∀ rid r inv,
    reservations t !! rid = Some r ->
    cancellable (status r) = true ->
    inventory t !! (product_id r, store_id r) = Some inv ->
    0 < quantity r ≤ reserved_quantity inv.

Definition valid_op (o : Op) : Prop :=
  match o with
  | Reserve request => valid_request request = true
  | _ => True
  end.

(** *** UpdateStock as the specification words it

    Modelled after the specification's step 4 of UpdateStock: a conditional
    update with [Δavailable = Δ], [Δtotal = Δ], [Δreserved = 0], guarded by
    the version read in step 2.  The source instead writes the literal
    [new_available] ([stock_update]). *)
Definition spec_stock_update (su : StockUpdate) (inv : InventoryDB) (t : Z)
    : InventoryUpdate :=
  mkInventoryUpdate (su_product_id su) (su_store_id su)
    (Some (version inv))
    (Plus (quantity_change su)) Keep (Plus (quantity_change su))
    (Plus 1) t.

(** A write to one inventory row committed by a concurrent request of the
    engine: the UPDATE of Reserve, Consume, Cancel or UpdateStock. *)
Inductive engine_write : InventoryDB -> InventoryDB -> Prop :=
  | by_reserve request inv t r :
      engine_write r (apply_values (reserve_update request inv t) r)
  | by_consume res inv t r :
      engine_write r (apply_values (consume_update res inv t) r)
  | by_cancel res t r :
      engine_write r (apply_values (cancel_update res t) r)
  | by_update_stock su inv a t r :
      engine_write r (apply_values (stock_update su inv a t) r).

(** ** Sample data *)

Definition P : string := "123e4567-e89b-12d3-a456-426614174000".
Definition S_ : string := "123e4567-e89b-12d3-a456-426614174001".

Definition sample_inventory (a r t v : Z) : gmap (string * string) InventoryDB :=
  {[ (P, S_) := mkInventoryDB "inv-1" a r t v 0 ]}.

Definition sample_uuids (n : nat) : string := "uuid-" +:+ pretty n.

Definition sample_world (inv : gmap (string * string) InventoryDB)
    (res : gmap string ReservationDB) (t : Z) : World :=
  mkWorld (mkTables inv res) (mkTables inv res) ∅ true true [] t sample_uuids 0 [].

Definition expired_reservation : ReservationDB :=
  mkReservationDB "ORDER-1" P S_ 2 EXPIRED 1060 1000 None None.

Definition confirmed_reservation : ReservationDB :=
  mkReservationDB "ORDER-1" P S_ 2 CONFIRMED 1900 1000 (Some 1010) None.

(** PENDING, with a deadline before the instants it is used at. *)
Definition lapsed_reservation : ReservationDB :=
  mkReservationDB "ORDER-1" P S_ 2 PENDING 1060 1000 None None.

Definition pending_reservation : ReservationDB :=
  mkReservationDB "ORDER-1" P S_ 2 PENDING 1900 1000 None None.

(** Another party holds the lock of [(P, S_)]. *)
Definition held_elsewhere (w : World) : World :=
  with_locks (fun l => {[lock_key_of P S_]} ∪ l) w.

(** ** The read path and the remaining routes *)

Record StockLevel := mkStockLevel {
  sl_product_id : string;
  sl_store_id : string;
  sl_available : Z;
  sl_reserved : Z;
  sl_total : Z;
  sl_last_updated : Z
}.

(** [get_stock_level]: the counters of the row [get_inventory] returns. *)
Definition get_stock_level (pid sid : string) : M (option StockLevel) :=
  let! inventory := get_inventory pid sid in
  match inventory with
  | None => ret None
  | Some inventory =>
      ret (Some (mkStockLevel pid sid (available_quantity inventory)
                   (reserved_quantity inventory) (total_quantity inventory)
                   (last_updated inventory)))
  end.

(** GET /inventory/stock/{product_id}/{store_id}: [except HTTPException:
    raise] lets the 404 through, any other exception becomes a 500. *)
Definition api_get_stock_level (pid sid : string) : M StockLevel :=
  try_except
    (let! stock_level := get_stock_level pid sid in
     match stock_level with
     | None => raise (HTTPException 404 "Stock level not found")
     | Some stock_level => ret stock_level
     end)
    (fun e =>
       match e with
       | HTTPException _ _ => raise e
       | _ =>
           logger ERROR "Failed to get stock level";;;
           raise (HTTPException 500 "Internal server error")
       end).

(** The body of POST /inventory/update-stock ([StockUpdateSchema]). *)
Record StockUpdateSchema := mkStockUpdateSchema {
  sus_product_id : string;
  sus_store_id : string;
  sus_quantity : Z;
  sus_operation : string
}.

(** [len(s)] of a Python string held as its UTF-8 bytes: the bytes that
    start a character, that is all but the continuation bytes [10xxxxxx]. *)
Fixpoint str_len (s : string) : nat :=
  match s with
  | EmptyString => 0%nat
  | String a s' =>
      let b := nat_of_ascii a in
      ((if (128 <=? b)%nat && (b <? 192)%nat then 0 else 1) + str_len s')%nat
  end.

(** [StockUpdate(...)] as pydantic builds it: [reason] is a required field
    of 1 to 200 characters, [reference_id] defaults to [None]. *)
Definition build_StockUpdate (pid sid : string) (qc : Z)
    (reason_arg : option string) : M StockUpdate :=
  match reason_arg with
  | None => raise PydanticValidationError
  | Some r =>
      if (1 <=? Z.of_nat (str_len r)) && (Z.of_nat (str_len r) <=? 200)
      then ret (mkStockUpdate pid sid qc r None)
      else raise PydanticValidationError
  end.

(** POST /inventory/update-stock.  The handler builds the [StockUpdate]
    from [product_id], [store_id] and [quantity_change] only; on success it
    would log [stock_update.quantity_change], an attribute the schema does
    not have. *)
Definition api_update_stock (stock_update : StockUpdateSchema) : M string :=
  try_except
    (let! stock_update_model :=
       build_StockUpdate (sus_product_id stock_update) (sus_store_id stock_update)
         (if String.eqb (sus_operation stock_update) "add"
          then sus_quantity stock_update
          else - sus_quantity stock_update)
         None in
     let! success := update_stock stock_update_model in
     if success then raise (AttributeError "quantity_change")
     else raise (HTTPException 400 "Failed to update stock"))
    (fun e =>
       logger ERROR "Stock update failed";;;
       raise_handled e).

(** The event type each operation publishes when it commits. *)
Definition event_of (o : Op) : string :=
  match o with
  | Reserve _ => "reservation_created"
  | Confirm _ => "reservation_confirmed"
  | Consume _ => "reservation_consumed"
  | Cancel _ => "reservation_cancelled"
  | UpdateStock _ => "stock_updated"
  end.

(** The lock key an operation works under, when it is known from the
    request alone. *)
Definition key_of_op (o : Op) : option string :=
  match o with
  | Reserve request =>
      Some (lock_key_of (req_product_id request) (req_store_id request))
  | UpdateStock su => Some (lock_key_of (su_product_id su) (su_store_id su))
  | _ => None
  end.

(** The status changes the guards of Confirm, Consume and Cancel allow. *)
Inductive lifecycle_step : ReservationStatus -> ReservationStatus -> Prop :=
  | step_confirm : lifecycle_step PENDING CONFIRMED
  | step_consume : lifecycle_step CONFIRMED CONSUMED
  | step_cancel_pending : lifecycle_step PENDING CANCELLED
  | step_cancel_confirmed : lifecycle_step CONFIRMED CANCELLED.

(** ** Request schemas ([src/schemas/inventory_schemas.py]) *)

(** The patterns the validators hand to [re.match] are sequences of
    character classes, each repeated a fixed number of times or one or more
    times, between [^] and [$].  Strings are read as their UTF-8 bytes: a
    character outside ASCII is in none of the classes. *)
Inductive Quantifier := Exactly (n : nat) | OneOrMore.

Record Item := mkItem {
  item_class : Ascii.ascii -> bool;
  item_quantifier : Quantifier
}.

Definition in_range (lo hi a : Ascii.ascii) : bool :=
  (Ascii.nat_of_ascii lo <=? Ascii.nat_of_ascii a)%nat && (Ascii.nat_of_ascii a <=? Ascii.nat_of_ascii hi)%nat.

Definition newline : Ascii.ascii := "010"%char.

Fixpoint string_forall (p : Ascii.ascii -> bool) (s : string) : bool :=
  match s with
  | EmptyString => true
  | String a s' => p a && string_forall p s'
  end.

(** [$] without [re.MULTILINE]: the end of the string, or the position just
    before a newline that ends it. *)
Definition at_end (s : string) : bool :=
  match s with
  | EmptyString => true
  | String a EmptyString => Ascii.eqb a newline
  | _ => false
  end.

(** [class{n}]: exactly [n] characters of the class; the rest of the string
    is returned. *)
Fixpoint exactly (p : Ascii.ascii -> bool) (n : nat) (s : string) : option string :=
  match n with
  | O => Some s
  | S n' =>
      match s with
      | String a s' => if p a then exactly p n' s' else None
      | EmptyString => None
      end
  end.

(** [class+] followed by the continuation [k]: the longest run first, then
    shorter ones. *)
Fixpoint one_or_more (p : Ascii.ascii -> bool) (k : string -> bool) (s : string) : bool :=
  match s with
  | EmptyString => false
  | String a s' => p a && (one_or_more p k s' || k s')
  end.

Fixpoint match_items (items : list Item) (s : string) : bool :=
  match items with
  | [] => at_end s
  | mkItem p (Exactly n) :: rest =>
      match exactly p n s with
      | Some s' => match_items rest s'
      | None => false
      end
  | mkItem p OneOrMore :: rest => one_or_more p (match_items rest) s
  end.

(** [re.match(r'^...$', v)] is not [None]. *)
Definition re_match (pattern : list Item) (v : string) : bool :=
  match_items pattern v.

(** [[A-Z0-9-_]] *)
Definition order_id_class (a : Ascii.ascii) : bool :=
  in_range "A"%char "Z"%char a || in_range "0"%char "9"%char a || Ascii.eqb a "-"%char || Ascii.eqb a "_"%char.

(** [[a-f0-9]] *)
Definition hex_class (a : Ascii.ascii) : bool :=
  in_range "a"%char "f"%char a || in_range "0"%char "9"%char a.

Definition hyphen (a : Ascii.ascii) : bool := Ascii.eqb a "-"%char.

(** [^[A-Z0-9-_]+$] *)
Definition ORDER_ID_PATTERN : list Item := [mkItem order_id_class OneOrMore].

(** [^[a-f0-9]{8}-[a-f0-9]{4}-[a-f0-9]{4}-[a-f0-9]{4}-[a-f0-9]{12}$] *)
Definition UUID_PATTERN : list Item :=
  [ mkItem hex_class (Exactly 8); mkItem hyphen (Exactly 1);
    mkItem hex_class (Exactly 4); mkItem hyphen (Exactly 1);
    mkItem hex_class (Exactly 4); mkItem hyphen (Exactly 1);
    mkItem hex_class (Exactly 4); mkItem hyphen (Exactly 1);
    mkItem hex_class (Exactly 12) ].

Definition validate_order_id (v : string) : bool := re_match ORDER_ID_PATTERN v.

Definition validate_uuid_format (v : string) : bool := re_match UUID_PATTERN v.

(** [validate_quantity] of [ReservationRequestSchema]. *)
Definition validate_quantity (v : Z) : bool := negb (v <=? 0) && negb (100 <? v).

(** [Field(min_length=lo, max_length=hi)]. *)
Definition length_between (lo hi : nat) (v : string) : bool :=
  (lo <=? String.length v)%nat && (String.length v <=? hi)%nat.

(** An identifier field: 36 characters and [validate_uuid_format]. *)
Definition uuid_field (v : string) : bool :=
  length_between 36 36 v && validate_uuid_format v.

(** The [order_id] field: 1 to 50 characters and [validate_order_id]. *)
Definition order_id_field (v : string) : bool :=
  length_between 1 50 v && validate_order_id v.

(** The body of POST /inventory/reserve. *)
Record ReservationRequestSchema := mkReservationRequestSchema {
  rrs_order_id : string;
  rrs_product_id : string;
  rrs_store_id : string;
  rrs_quantity : Z;
  rrs_ttl_minutes : Z
}.

(** The field constraints and validators of [ReservationRequestSchema]. *)
Definition validate_ReservationRequestSchema (b : ReservationRequestSchema) : bool :=
  order_id_field (rrs_order_id b)
  && uuid_field (rrs_product_id b)
  && uuid_field (rrs_store_id b)
  && (0 <? rrs_quantity b) && (rrs_quantity b <=? 100)
  && validate_quantity (rrs_quantity b)
  && (1 <=? rrs_ttl_minutes b) && (rrs_ttl_minutes b <=? 60).

(** [ReservationRequest(...)] as pydantic builds it in the route. *)
Definition build_ReservationRequest (order_id product_id store_id : string)
    (quantity ttl_minutes : Z) : M ReservationRequest :=
  let r := mkReservationRequest order_id product_id store_id quantity ttl_minutes in
  if valid_request r then ret r else raise PydanticValidationError.

(** POST /inventory/reserve, from the request body: the model is built
    inside the handler's [try]. *)
Definition post_reserve (request : ReservationRequestSchema) : M ReservationResponse :=
  try_except
    (let! reservation_request :=
       build_ReservationRequest (rrs_order_id request) (rrs_product_id request)
         (rrs_store_id request) (rrs_quantity request) (rrs_ttl_minutes request) in
     let! result := reserve_stock reservation_request in
     logger INFO "Stock reservation successful";;;
     ret result)
    (fun e =>
       logger ERROR "Stock reservation failed";;;
       raise_handled e).

(** ** UpdateStock among concurrent requests *)

(** What the server does while a coroutine is suspended at an [await]: it
    serves other requests, each on a session of its own and to its end;
    what one of them raises goes to its own client. *)
Definition served (o : Op) : M unit :=
  try_except (request o) (fun _ => ret tt).

Fixpoint concurrently (os : list Op) : M unit :=
  match os with
  | [] => ret tt
  | o :: os' => served o;;; concurrently os'
  end.

(** [update_stock] with the suspension at
    [await self.db.execute(update(InventoryDB)...)] made explicit: [others]
    runs after [get_inventory] has read the row and before the UPDATE
    reaches the database, which applies it to the committed state of that
    moment.  [statement] is the UPDATE issued, [stock_update] in the
    source. *)
Definition update_stock_at
    (statement : StockUpdate -> InventoryDB -> Z -> Z -> InventoryUpdate)
    (others : M unit) (su : StockUpdate) : M bool :=
  let pid := su_product_id su in
  let sid := su_store_id su in
  let lock_key := lock_key_of pid sid in
  try_finally
    (try_except
       (let! acquired := acquire_lock lock_key 30 in
        if negb acquired then
          raise (PlainException "Could not acquire inventory lock")
        else
        let! inventory := get_inventory pid sid in
        match inventory with
        | None => raise (PlainException "Inventory not found")
        | Some inventory =>
            let new_available :=
              available_quantity inventory + quantity_change su in
            if new_available <? 0 then
              raise (PlainException "Stock cannot go below zero")
            else
            let! t := utcnow in
            others;;;
            let! rowcount :=
              execute_update_inventory
                (statement su inventory new_available t) in
            if rowcount =? 0 then
              raise (OptimisticLockConflictError (resource_of pid sid))
            else
            publish_event "stock_updated"
              [("product_id", PStr pid); ("store_id", PStr sid);
               ("quantity_change", PInt (quantity_change su));
               ("new_available", PInt new_available);
               ("reason", PStr (reason su));
               ("reference_id",
                match reference_id su with Some s => PStr s | None => PNone end)];;;
            db_commit;;;
            logger INFO "Stock updated successfully";;;
            ret true
        end)
       (fun e =>
          db_rollback;;;
          logger ERROR "Failed to update stock";;;
          raise e))
    (release_quietly lock_key).

(** The UPDATE of the specification's step 4 in the place of the source's:
    [new_available] is not used. *)
Definition relative_statement (su : StockUpdate) (inv : InventoryDB)
    (new_available t : Z) : InventoryUpdate :=
  spec_stock_update su inv t.

(** A value an INTEGER column of SQLite holds and its driver binds: a
    signed 64-bit integer. *)
Definition fits_integer (z : Z) : Prop := - 2 ^ 63 ≤ z < 2 ^ 63.

(** * Verification *)

(** ** Symbolic execution of the monad *)

Ltac unfold_m :=
  unfold request, get_db, run_op, run_transition, forget,
    api_reserve_stock, api_confirm_reservation, api_cancel_reservation,
    api_consume_reservation, raise_handled, handle_service_exception,
    confirm_reservation, consume_reservation, cancel_reservation,
    _expire_reservation, reserve_stock, update_stock, get_inventory,
    release_quietly, publish_event, bus_publish, acquire_lock, release_lock,
    db_commit, db_rollback, db_add, uuid4, execute_update_reservation,
    execute_update_inventory, run_inventory_update, select_reservation,
    select_inventory, utcnow, logger, emit, when, try_finally, try_except,
    modify, get, raise, bind, ret in *.

Ltac step :=
  cbn -[lock_key_of resource_of pretty String.append where_matches
        apply_values error_msg] in *.

(** Case analysis on the innermost scrutinee the execution is stuck on. *)
Ltac branch :=
  match goal with
  | |- context [match ?x with _ => _ end] =>
      lazymatch x with
      | context [match _ with _ => _ end] => fail
      | _ => let E := fresh "E" in destruct x eqn:E
      end
  end.

Ltac exec := step; repeat (branch; step); simplify_eq.

(** Execution along the path the hypotheses select: [tac] rewrites with
    them whenever the execution is stuck. *)
Ltac run_with tac := step; repeat (progress (tac; step)).

Lemma status_eqb_eq a b : status_eqb a b = true <-> a = b.
Proof. destruct a, b; cbn; split; congruence. Qed.

Lemma status_eqb_refl a : status_eqb a a = true.
Proof. by destruct a. Qed.

(** Reserve: every observation the execution depends on is settled first,
    then each case is run to its end. *)
Ltac reserve_run Hi Hv Hq Hu :=
  unfold_m;
  run_with ltac:(unfold where_matches, next_uuid;
                 rewrite ?decide_False, ?decide_True, ?Hi, ?Hv, ?Hq, ?Hu,
                   ?Z.eqb_refl by done).

(** The inventory row [inv] is known from [Hi]. *)
Ltac reserve_cases_row rq c l lu bu us n inv Hi Hl Hv Hq Hu :=
  destruct lu, bu;
  destruct (decide (lock_key_of (req_product_id rq) (req_store_id rq) ∈ l))
    as [Hl | Hl];
  destruct (validate_inventory inv) eqn:Hv;
  destruct (available_quantity inv <? req_quantity rq) eqn:Hq;
  destruct (reservations c !! us n) eqn:Hu;
  reserve_run Hi Hv Hq Hu.

Ltac reserve_cases rq c l lu bu us n Hl Hi Hv Hq Hu :=
  let i := fresh "inv" in
  destruct (inventory c !! (req_product_id rq, req_store_id rq))
    as [i|] eqn:Hi;
  [ reserve_cases_row rq c l lu bu us n i Hi Hl Hv Hq Hu
  | destruct lu, bu;
    destruct (decide (lock_key_of (req_product_id rq) (req_store_id rq) ∈ l))
      as [Hl | Hl];
    reserve_run Hi Hi Hi Hi ].

Lemma release_after_acquire (k : string) (l : gset string) :
  k ∉ l -> ({[k]} ∪ l) ∖ {[k]} = l.
Proof.
  intros Hk. apply set_eq. intros x.
  rewrite elem_of_difference, elem_of_union, !elem_of_singleton.
  split; [ intros [[-> | ?] ?]; done | ].
  intros Hx. split; [ by right | by intros -> ].
Qed.

(** ** The UPDATE statements on one row *)

Lemma sibling_updates_bump_version request res su inv a t r :
  version (apply_values (reserve_update request inv t) r) = version r + 1
  ∧ version (apply_values (consume_update res inv t) r) = version r + 1
  ∧ version (apply_values (cancel_update res t) r) = version r + 1
  ∧ version (apply_values (stock_update su inv a t) r) = version r + 1.
Proof. repeat split. Qed.

Lemma expire_update_keeps_version res t r :
  version (apply_values (expire_update res t) r) = version r
  ∧ last_updated (apply_values (expire_update res t) r) = t.
Proof. split; reflexivity. Qed.

Lemma op_write_version w o k inv inv' :
  op_write w o k inv inv' ->
  version inv' = version inv + 1 ∧ last_updated inv' = now w.
Proof. destruct 1; split; reflexivity. Qed.

Lemma validate_inventory_row_ok inv :
  validate_inventory inv = true -> row_ok inv ∧ 1 ≤ version inv.
Proof.
  unfold validate_inventory, row_ok. rewrite !andb_true_iff.
  intros [[[[Ha Hr] Ht] Hv] He]. lia.
Qed.

Lemma op_write_row_ok w o k inv inv' :
  valid_op o ->
  reservations_covered (committed w) ->
  inventory (committed w) !! k = Some inv ->
  row_ok inv ->
  op_write w o k inv inv' ->
  row_ok inv'.
Proof.
  intros Hv Hc Hk Hok Hw. unfold row_ok in *.
  destruct Hw as [rq inv Hval Hq | rid r inv Hr Hs | rid r inv Hr Hs | su inv Hval Hq];
    cbn in *.
  - unfold valid_request in Hv. rewrite !andb_true_iff in Hv. lia.
  - pose proof (Hc rid r inv Hr) as Hq. rewrite Hs in Hq.
    specialize (Hq eq_refl Hk). lia.
  - specialize (Hc rid r inv Hr Hs Hk). lia.
  - lia.
Qed.

Lemma expire_update_row_ok res t inv :
  row_ok inv ->
  0 < quantity res ≤ reserved_quantity inv ->
  row_ok (apply_values (expire_update res t) inv).
Proof. unfold row_ok. cbn. lia. Qed.

(** A concurrent engine write moves the version on by one. *)
Lemma engine_write_version r r' :
  engine_write r r' -> version r' = version r + 1.
Proof. destruct 1; reflexivity. Qed.

Lemma engine_writes_version r r' :
  rtc engine_write r r' ->
  version r ≤ version r' ∧ (version r' = version r -> r' = r).
Proof.
  induction 1 as [r | r r1 r' Hstep _ [IHle IHeq]].
  - split; [lia | done].
  - apply engine_write_version in Hstep. split; [lia | intros; lia].
Qed.

(** ** What a request commits to the inventory *)

(** A request leaves the committed inventory as it was, or replaces one row
    by the write of its operation. *)
Lemma request_inventory o w :
  inventory (committed (request o w).2) = inventory (committed w)
  ∨ ∃ k inv inv',
      inventory (committed w) !! k = Some inv
      ∧ op_write w o k inv inv'
      ∧ inventory (committed (request o w).2) = <[k := inv']> (inventory (committed w)).
Proof.
  destruct w as [c s l lu bu pub t us n tr].
  destruct o as [rq | rid | rid | rid | su].
  - reserve_cases rq c l lu bu us n Hl Hi Hv Hq Hu; auto.
    right; eexists _, _, _; split; [eassumption|]; split; [|reflexivity].
    apply write_reserve; [done | lia].
  - unfold_m. exec; auto.
  - unfold_m. exec; auto.
    right; eexists _, _, _; split; [eassumption|]; split; [|reflexivity].
    eapply write_consume; [eassumption|].
    apply status_eqb_eq. by destruct (status_eqb _ _).
  - unfold_m. exec; auto.
    right; eexists _, _, _; split; [eassumption|]; split; [|reflexivity].
    eapply write_cancel; [eassumption|]. by destruct (cancellable _).
  - unfold_m. exec; auto.
    right; eexists _, _, _; split; [eassumption|]; split; [|reflexivity].
    apply write_stock; [done | lia].
Qed.

(** ** Reservations in a terminal or otherwise wrong status *)

(** C9.  A reservation whose status is CONSUMED, CANCELLED or EXPIRED stays
    as it is: Confirm, Consume and Cancel each raise and leave both the
    committed tables and the session untouched; Expire returns without a
    write, so a second Expire credits no stock. *)
Theorem terminal_status_is_final w rid r :
  reservations (session w) !! rid = Some r ->
  terminal (status r) ->
  (∀ t, ∃ e, (run_transition t rid w).1 = Raise e
             ∧ same_tables w (run_transition t rid w).2)
  ∧ (_expire_reservation rid w).1 = Return tt
  ∧ same_tables w (_expire_reservation rid w).2.
Proof.
  intros Hr Ht. destruct w as [c s l lu bu pub t us n tr]. cbn in Hr.
  unfold same_tables. split; [intros [] | ]; unfold_m; step; rewrite Hr; step;
    destruct Ht as [Ht | [Ht | Ht]]; rewrite Ht; step; eauto.
Qed.

Lemma terminal_status_is_final_witness :
  let w := sample_world (sample_inventory 5 0 5 3)
             {[ "R" := expired_reservation ]} 1500 in
  (_expire_reservation "R" w).1 = Return tt
  ∧ same_tables w (_expire_reservation "R" w).2.
Proof.
  intros w.
  apply (terminal_status_is_final w "R" expired_reservation);
    [ vm_compute; reflexivity | right; right; reflexivity ].
Defined.

(** C8, as amended.  A transition asked on a status it does not start from
    fails with the exception written at its [raise] site.  For Confirm that
    is [InvalidReservationStatusError]: a BUSINESS_ERROR with code
    INVALID_RESERVATION_STATUS whose status code is 400, which
    [handle_service_exception] turns into an HTTP 400.  Consume and Cancel
    raise a plain [Exception], which carries no code and is translated to
    500. *)
Theorem wrong_status_rejection t w rid r :
  reservations (session w) !! rid = Some r ->
  allowed_from t (status r) = false ->
  let e := rejection t rid (status r) in
  (run_transition t rid w).1 = Raise e
  ∧ status_code_of e = match t with TConfirm => Some 400 | _ => None end
  ∧ error_type_of e = match t with TConfirm => Some BUSINESS_ERROR | _ => None end
  ∧ error_code_of e =
      match t with TConfirm => Some INVALID_RESERVATION_STATUS | _ => None end
  ∧ ∀ w', http_status (@raise_handled unit e w').1 =
            match t with TConfirm => 400 | _ => 500 end.
Proof.
  intros Hr Ha e. destruct w as [c s l lu bu pub tm us n tr]. cbn in Hr.
  split.
  - subst e. destruct t; unfold_m; step; rewrite Hr; step; by rewrite Ha.
  - destruct t; repeat split; intros [].
Qed.

Lemma wrong_status_rejection_witness :
  let w := sample_world (sample_inventory 3 2 5 2)
             {[ "R" := confirmed_reservation ]} 1020 in
  (run_transition TConfirm "R" w).1
    = Raise (InvalidReservationStatusError "R" CONFIRMED PENDING)
  ∧ status_code_of (InvalidReservationStatusError "R" CONFIRMED PENDING) = Some 400.
Proof.
  intros w.
  destruct (wrong_status_rejection TConfirm w "R" confirmed_reservation)
    as (H1 & H2 & _); [ vm_compute; reflexivity | reflexivity | ].
  split; [exact H1 | exact H2].
Defined.

(** C8, the claim as stated fails: Confirm on a CONFIRMED reservation
    raises an error whose status code is 400, which the translation of
    [handle_service_exception] keeps, and the route itself answers 500; none
    of them is 409. *)
Lemma confirm_wrong_status_is_not_conflict :
  let w := sample_world (sample_inventory 3 2 5 2)
             {[ "R" := confirmed_reservation ]} 1020 in
  ∃ e, (confirm_reservation "R" w).1 = Raise e
       ∧ error_code_of e = Some INVALID_RESERVATION_STATUS
       ∧ status_code_of e = Some 400
       ∧ status_code_of e ≠ Some RESP_CONFLICT
       ∧ http_status (@raise_handled unit e w).1 = 400
       ∧ http_status (get_db (api_confirm_reservation "R") w).1 = 500.
Proof.
  intros w. exists (InvalidReservationStatusError "R" CONFIRMED PENDING).
  repeat split; try (vm_compute; reflexivity). intros H; discriminate H.
Qed.

(** Consume and Cancel on a wrong status over HTTP: 500. *)
Lemma consume_cancel_wrong_status_http w rid r :
  reservations (committed w) !! rid = Some r ->
  (status_eqb (status r) CONFIRMED = false ->
     http_status (get_db (api_consume_reservation rid) w).1 = 500)
  ∧ (cancellable (status r) = false ->
     http_status (get_db (api_cancel_reservation rid) w).1 = 500).
Proof.
  intros Hr. destruct w as [c s l lu bu pub tm us n tr]. cbn in Hr.
  split; intros Hs; unfold_m; step; rewrite Hr; step; by rewrite Hs.
Qed.

(** ** Lazy expiry inside Confirm *)

(** C6.  Confirm on a PENDING reservation whose [expires_at] is before the
    clock enters [_expire_reservation], which writes to the session and then
    evaluates [self._publish_event], an attribute the class lacks.  The
    request ends with [AttributeError], not with [ReservationExpiredError]:
    nothing is committed, the reservation stays PENDING, nothing is
    published, and the route answers 500. *)
Theorem confirm_expired_commits_nothing w rid r :
  reservations (committed w) !! rid = Some r ->
  status r = PENDING ->
  expires_at r < now w ->
  let res := get_db (confirm_reservation rid) w in
  res.1 = Raise (AttributeError "_publish_event")
  ∧ committed res.2 = committed w
  ∧ session res.2 = committed w
  ∧ published res.2 = published w
  ∧ List.filter is_commit (effects_of (get_db (confirm_reservation rid)) w) = []
  ∧ http_status (get_db (api_confirm_reservation rid) w).1 = 500.
Proof.
  intros Hr Hs Hexp. destruct w as [c s l lu bu pub t us n tr]. cbn in Hr, Hexp.
  assert (Hlt : (expires_at r <? t) = true) by lia.
  unfold effects_of, with_trace. unfold_m. step.
  rewrite !Hr. step. rewrite !Hs. step. rewrite !Hlt. step.
  rewrite !Hr. step. rewrite !Hs. step.
  repeat (branch; step); repeat split.
Qed.

Lemma confirm_expired_commits_nothing_witness :
  let w := sample_world (sample_inventory 3 2 5 2)
             {[ "R" := lapsed_reservation ]} 1120 in
  let res := get_db (confirm_reservation "R") w in
  res.1 = Raise (AttributeError "_publish_event")
  ∧ committed res.2 = committed w.
Proof.
  intros w res.
  destruct (confirm_expired_commits_nothing w "R" lapsed_reservation)
    as (H1 & H2 & _);
    [ vm_compute; reflexivity | reflexivity | vm_compute; reflexivity | ].
  split; [exact H1 | exact H2].
Defined.

(** The same request on the literal values of the lazy-expiry scenario:
    the inventory stays (3, 2, 5, version 2) and the reservation PENDING. *)
Example lazy_expiry_scenario :
  let w := sample_world (sample_inventory 3 2 5 2)
             {[ "R" := lapsed_reservation ]} 1120 in
  let w' := (request (Confirm "R") w).2 in
  inventory (committed w') !! (P, S_) = Some (mkInventoryDB "inv-1" 3 2 5 2 0)
  ∧ status <$> reservations (committed w') !! "R" = Some PENDING
  ∧ published w' = [].
Proof. vm_compute. repeat split. Qed.

(** ** The version column *)

(** C2.  Every change a request commits to an inventory row raises its
    version by exactly one and stamps [last_updated] with the clock, and
    the request is a Reserve, a Consume, a Cancel or an UpdateStock: a
    Confirm, the one caller of Expire, commits no change to any inventory
    row, so the UPDATE of [_expire_reservation], which assigns no version,
    is never among the committed ones. *)
Theorem committed_mutation_bumps_version o w k inv inv' :
  inventory (committed w) !! k = Some inv ->
  inventory (committed (request o w).2) !! k = Some inv' ->
  inv' ≠ inv ->
  version inv' = version inv + 1
  ∧ last_updated inv' = now w
  ∧ (∀ rid, o ≠ Confirm rid).
Proof.
  intros Hk Hk' Hne.
  destruct (request_inventory o w) as [He | (k0 & i0 & i1 & Hk0 & Hw & He)];
    rewrite He in Hk'; [congruence|].
  destruct (decide (k0 = k)) as [-> | Hd].
  - rewrite lookup_insert_eq in Hk'. simplify_eq.
    destruct (op_write_version _ _ _ _ _ Hw) as [Hv Ht].
    split; [exact Hv|]. split; [exact Ht|].
    intros rid ->. inversion Hw.
  - rewrite lookup_insert_ne in Hk' by done. congruence.
Qed.

Lemma committed_mutation_bumps_version_witness :
  let w := sample_world (sample_inventory 3 2 5 2)
             {[ "R" := confirmed_reservation ]} 1020 in
  let w' := (request (Consume "R") w).2 in
  inventory (committed w') !! (P, S_) = Some (mkInventoryDB "inv-1" 3 0 3 3 1020)
  ∧ version (mkInventoryDB "inv-1" 3 0 3 3 1020) = 2 + 1
  ∧ last_updated (mkInventoryDB "inv-1" 3 0 3 3 1020) = 1020.
Proof.
  intros w w'.
  assert (H' : inventory (committed w') !! (P, S_)
               = Some (mkInventoryDB "inv-1" 3 0 3 3 1020))
    by (vm_compute; reflexivity).
  split; [exact H'|].
  destruct (committed_mutation_bumps_version (Consume "R") w (P, S_)
              (mkInventoryDB "inv-1" 3 2 5 2 0)
              (mkInventoryDB "inv-1" 3 0 3 3 1020)) as (H1 & H2 & _);
    [ vm_compute; reflexivity | exact H' | discriminate | ].
  split; [exact H1 | exact H2].
Defined.

(** The lazy-expiry path on literal values: the Confirm that runs Expire
    issues its UPDATE and leaves the committed row, version included, as it
    was. *)
Example confirm_with_expiry_commits_no_row :
  let w := sample_world (sample_inventory 3 2 5 2)
             {[ "R" := lapsed_reservation ]} 1120 in
  List.filter is_inventory_update (effects_of (request (Confirm "R")) w)
  = [UpdateInventory (expire_update lapsed_reservation 1120) 1]
  ∧ inventory (committed (request (Confirm "R") w).2) !! (P, S_)
    = Some (mkInventoryDB "inv-1" 3 2 5 2 0).
Proof. vm_compute. split; reflexivity. Qed.

(** X20.  Every change a request commits to an inventory row moves its
    version on by exactly one and stamps [last_updated] with the clock. *)
Lemma request_bumps_version o w k inv inv' :
  inventory (committed w) !! k = Some inv ->
  inventory (committed (request o w).2) !! k = Some inv' ->
  inv' ≠ inv ->
  version inv' = version inv + 1 ∧ last_updated inv' = now w.
Proof.
  intros Hk Hk' Hne.
  destruct (request_inventory o w) as [He | (k0 & i0 & i1 & Hk0 & Hw & He)];
    rewrite He in Hk'.
  - congruence.
  - destruct (decide (k0 = k)) as [-> | Hd].
    + rewrite lookup_insert_eq in Hk'. simplify_eq.
      by eapply op_write_version.
    + rewrite lookup_insert_ne in Hk' by done. congruence.
Qed.

(** ** Consume and the distributed lock *)

(** C5.  Consume of a CONFIRMED reservation goes through with the
    version-guarded update (reserved and total minus quantity, available
    untouched) and commits it, without one call to the lock manager: the
    trace has no acquisition and the set of held locks is what it was,
    whoever holds the (product, store) key. *)
Theorem consume_takes_no_lock w rid r inv :
  reservations (committed w) !! rid = Some r ->
  status r = CONFIRMED ->
  inventory (committed w) !! (product_id r, store_id r) = Some inv ->
  event_bus_up w = true ->
  let res := request (Consume rid) w in
  res.1 = Return tt
  ∧ inventory (committed res.2) !! (product_id r, store_id r)
    = Some (mkInventoryDB (inv_id inv) (available_quantity inv)
              (reserved_quantity inv + - quantity r)
              (total_quantity inv + - quantity r)
              (version inv + 1) (now w))
  ∧ List.filter is_acquire (effects_of (request (Consume rid)) w) = []
  ∧ locks res.2 = locks w.
Proof.
  intros Hr Hs Hi Hb. destruct w as [c s l lu bu pub t us n tr].
  cbn in Hr, Hi, Hb. subst bu.
  unfold effects_of, with_trace. unfold_m.
  run_with ltac:(unfold where_matches; rewrite ?Hr, ?Hs, ?Hi, ?Z.eqb_refl).
  repeat split. apply lookup_insert_eq.
Qed.

(** Whatever the world, Consume never calls the lock manager. *)
Lemma consume_never_acquires w rid :
  List.filter is_acquire (effects_of (consume_reservation rid) w) = []
  ∧ locks (consume_reservation rid w).2 = locks w.
Proof.
  destruct w as [c s l lu bu pub t us n tr].
  unfold effects_of, with_trace. unfold_m. split; exec; reflexivity.
Qed.

Lemma consume_takes_no_lock_witness :
  let w := held_elsewhere
             (sample_world (sample_inventory 3 2 5 2)
                {[ "R" := confirmed_reservation ]} 1020) in
  lock_key_of P S_ ∈ locks w
  ∧ (request (Consume "R") w).1 = Return tt
  ∧ List.filter is_acquire (effects_of (request (Consume "R")) w) = [].
Proof.
  intros w.
  destruct (consume_takes_no_lock w "R" confirmed_reservation
              (mkInventoryDB "inv-1" 3 2 5 2 0))
    as (H1 & _ & H3 & _);
    [ vm_compute; reflexivity | reflexivity | vm_compute; reflexivity
    | reflexivity | ].
  split; [ | split; [exact H1 | exact H3] ].
  unfold w, held_elsewhere. cbn. set_solver.
Defined.

(** In that world the sibling path Cancel is turned away by the held key. *)
Example cancel_respects_held_lock :
  let w := held_elsewhere
             (sample_world (sample_inventory 3 2 5 2)
                {[ "R" := confirmed_reservation ]} 1020) in
  (request (Cancel "R") w).1 = Raise (PlainException "Could not acquire inventory lock")
  ∧ committed (request (Cancel "R") w).2 = committed w.
Proof. vm_compute. repeat split. Qed.

(** ** Reserve and the event publisher *)

(** C1.  With the lock acquired, the inventory present, the stock check
    passed and the conditional update applied, a publisher that fails makes
    Reserve fail: [publish_event] logs and re-raises, the call sits before
    [db.commit()] inside the [try], so the handler rolls the session back and
    raises again.  Neither the inventory update nor the reservation row is
    committed, and the route answers 500. *)
Theorem reserve_publish_failure_rolls_back w request inv :
  let pid := req_product_id request in
  let sid := req_store_id request in
  lock_service_up w = true ->
  lock_key_of pid sid ∉ locks w ->
  inventory (committed w) !! (pid, sid) = Some inv ->
  validate_inventory inv = true ->
  req_quantity request ≤ available_quantity inv ->
  reservations (committed w) !! next_uuid w = None ->
  event_bus_up w = false ->
  let res := get_db (reserve_stock request) w in
  res.1 = Raise BrokerError
  ∧ committed res.2 = committed w
  ∧ session res.2 = committed w
  ∧ locks res.2 = locks w
  ∧ List.filter is_commit (effects_of (get_db (reserve_stock request)) w) = []
  ∧ Rollback ∈ effects_of (get_db (reserve_stock request)) w
  ∧ http_status (get_db (api_reserve_stock request) w).1 = 500.
Proof.
  intros pid sid Hup Hfree Hi Hval Hq Hid Hbus.
  destruct w as [c s l lu bu pub t us n tr]. cbn in Hup, Hfree, Hi, Hid, Hbus.
  subst lu bu pid sid. unfold next_uuid in Hid; cbn in Hid.
  assert (Hlt : (available_quantity inv <? req_quantity request) = false) by lia.
  unfold effects_of, with_trace. unfold_m.
  run_with ltac:(unfold where_matches, next_uuid;
                 rewrite ?decide_False, ?Hi, ?Hval, ?Hlt, ?Hid, ?Z.eqb_refl by done).
  repeat split;
    [ by apply release_after_acquire | apply list_elem_of_In; cbn; tauto ].
Qed.

Lemma reserve_publish_failure_rolls_back_witness :
  let w := mkWorld (mkTables (sample_inventory 5 0 5 1) ∅)
             (mkTables (sample_inventory 5 0 5 1) ∅) ∅ true false [] 1000
             sample_uuids 0 [] in
  let request := mkReservationRequest "ORDER-1" P S_ 3 15 in
  let res := get_db (reserve_stock request) w in
  res.1 = Raise BrokerError ∧ committed res.2 = committed w.
Proof.
  intros w request res.
  destruct (reserve_publish_failure_rolls_back w request
              (mkInventoryDB "inv-1" 5 0 5 1 0)) as (H1 & H2 & _);
    [ reflexivity | cbn; set_solver | vm_compute; reflexivity | reflexivity
    | cbn; lia | vm_compute; reflexivity | reflexivity | ].
  split; [exact H1 | exact H2].
Defined.

(** ** Cancel *)

(** C4, the claim as stated fails.  The UPDATE Cancel issues has no version
    predicate; and where it affects no row (here no inventory row exists for
    the reservation's product and store) Cancel neither retries nor raises
    [OptimisticLockConflictError]: it issues that one UPDATE, marks the
    reservation CANCELLED, commits and returns [True]. *)
Lemma cancel_is_unconditional_and_never_retries :
  let pending := mkReservationDB "ORDER-1" P S_ 2 PENDING 1900 1000 None None in
  let w := sample_world ∅ {[ "R" := pending ]} 1020 in
  let w' := sample_world (sample_inventory 3 2 5 7) {[ "R" := pending ]} 1020 in
  where_version (cancel_update pending 1020) = None
  ∧ List.filter is_inventory_update (effects_of (cancel_reservation "R") w)
    = [UpdateInventory (cancel_update pending 1020) 0]
  ∧ (cancel_reservation "R" w).1 = Return true
  ∧ status <$> reservations (committed (cancel_reservation "R" w).2) !! "R"
    = Some CANCELLED
  ∧ List.filter is_inventory_update (effects_of (cancel_reservation "R") w')
    = [UpdateInventory (cancel_update pending 1020) 1].
Proof. vm_compute. repeat split. Qed.

(** C4, as amended.  Cancel of a PENDING or CONFIRMED reservation that gets
    the (product, store) lock issues its inventory UPDATE (available plus
    quantity, reserved minus quantity, total untouched) exactly once, after
    the acquisition and before the one release of that lock; there is no
    second attempt. *)
Theorem cancel_updates_once_under_lock w rid r :
  reservations (session w) !! rid = Some r ->
  cancellable (status r) = true ->
  lock_service_up w = true ->
  lock_key_of (product_id r) (store_id r) ∉ locks w ->
  let key := lock_key_of (product_id r) (store_id r) in
  (∃ n rest,
     effects_of (cancel_reservation rid) w
     = SelectReservation rid :: AcquireLock key true
       :: UpdateInventory (cancel_update r (now w)) n :: rest
     ∧ List.filter is_inventory_update rest = []
     ∧ List.filter is_lock_call rest = [ReleaseLock key])
  ∧ ∀ t inv,
      available_quantity (apply_values (cancel_update r t) inv)
        = available_quantity inv + quantity r
      ∧ reserved_quantity (apply_values (cancel_update r t) inv)
        = reserved_quantity inv - quantity r
      ∧ total_quantity (apply_values (cancel_update r t) inv)
        = total_quantity inv.
Proof.
  intros Hr Hs Hup Hfree key. split; [ | intros; repeat split; cbn; lia ].
  destruct w as [c s l lu bu pub t us n tr]. cbn in Hr, Hup, Hfree. subst lu key.
  unfold effects_of, with_trace. unfold_m.
  run_with ltac:(rewrite ?decide_False, ?Hr, ?Hs by done).
  destruct (inventory s !! (product_id r, store_id r)) as [i|];
    destruct bu; step;
    try (destruct (where_matches _ _); step);
    eexists _, _; (split; [ reflexivity | split; reflexivity ]).
Qed.

Lemma cancel_updates_once_under_lock_witness :
  let pending := mkReservationDB "ORDER-1" P S_ 2 PENDING 1900 1000 None None in
  let w := sample_world (sample_inventory 3 2 5 2) {[ "R" := pending ]} 1020 in
  ∃ n rest,
    effects_of (cancel_reservation "R") w
    = SelectReservation "R" :: AcquireLock (lock_key_of P S_) true
      :: UpdateInventory (cancel_update pending 1020) n :: rest
    ∧ List.filter is_inventory_update rest = []
    ∧ List.filter is_lock_call rest = [ReleaseLock (lock_key_of P S_)].
Proof.
  intros pending w.
  destruct (cancel_updates_once_under_lock w "R" pending) as [H _];
    [ vm_compute; reflexivity | reflexivity | reflexivity | cbn; set_solver | ].
  exact H.
Defined.

(** Whatever the world, Cancel does not raise
    [OptimisticLockConflictError]. *)
Lemma cancel_never_reports_conflict w rid resource :
  (cancel_reservation rid w).1 ≠ Raise (OptimisticLockConflictError resource).
Proof.
  destruct w as [c s l lu bu pub t us n tr]. unfold_m. exec; discriminate.
Qed.

(** ** The ledger invariant *)

(** C3, the claim as stated fails.  The row (5, 0, 5) satisfies the
    invariant; a CONFIRMED reservation of 2 units on it, which its
    [reserved_quantity] does not cover, is consumed and the committed row is
    (5, -2, 3). *)
Lemma consume_uncovered_reservation_goes_negative :
  let w := sample_world (sample_inventory 5 0 5 1)
             {[ "R" := confirmed_reservation ]} 1020 in
  let res := request (Consume "R") w in
  ∃ inv inv',
    inventory (committed w) !! (P, S_) = Some inv
    ∧ row_ok inv
    ∧ res.1 = Return tt
    ∧ inventory (committed res.2) !! (P, S_) = Some inv'
    ∧ reserved_quantity inv' = -2
    ∧ ¬ row_ok inv'.
Proof.
  intros w res.
  exists (mkInventoryDB "inv-1" 5 0 5 1 0), (mkInventoryDB "inv-1" 5 (-2) 3 2 1020).
  repeat split; try (vm_compute; reflexivity); try (cbn; lia).
  unfold row_ok. cbn. lia.
Qed.

(** C3, as amended.  A request of the engine (Reserve, Confirm with its
    expiry branch, Consume, Cancel, UpdateStock) that starts from committed
    tables in which every PENDING or CONFIRMED reservation holds a positive
    quantity covered by the [reserved_quantity] of its row, takes every
    inventory row that satisfies the invariant to a row that satisfies it. *)
Theorem ledger_invariant_preserved o w k inv inv' :
  valid_op o ->
  reservations_covered (committed w) ->
  inventory (committed w) !! k = Some inv ->
  row_ok inv ->
  inventory (committed (request o w).2) !! k = Some inv' ->
  row_ok inv'.
Proof.
  intros Hv Hc Hk Hok Hk'.
  destruct (request_inventory o w) as [He | (k0 & i0 & i1 & Hk0 & Hw & He)];
    rewrite He in Hk'.
  - congruence.
  - destruct (decide (k0 = k)) as [-> | Hd].
    + rewrite lookup_insert_eq in Hk'. simplify_eq.
      by eapply op_write_row_ok.
    + rewrite lookup_insert_ne in Hk' by done. congruence.
Qed.

Lemma ledger_invariant_preserved_witness :
  let w := sample_world (sample_inventory 3 2 5 2)
             {[ "R" := confirmed_reservation ]} 1020 in
  inventory (committed (request (Consume "R") w).2) !! (P, S_)
    = Some (mkInventoryDB "inv-1" 3 0 3 3 1020)
  ∧ row_ok (mkInventoryDB "inv-1" 3 0 3 3 1020).
Proof.
  intros w. split; [ vm_compute; reflexivity | ].
  apply (ledger_invariant_preserved (Consume "R") w (P, S_)
           (mkInventoryDB "inv-1" 3 2 5 2 0)).
  - exact I.
  - intros rid r inv Hr _ Hi. cbn in Hr.
    apply lookup_singleton_Some in Hr as [_ <-].
    vm_compute in Hi. injection Hi as <-. cbn. lia.
  - vm_compute; reflexivity.
  - unfold row_ok; cbn; lia.
  - vm_compute; reflexivity.
Defined.

(** ** Reserve followed by Cancel *)

Lemma reserve_success w request resp w1 inv :
  let pid := req_product_id request in
  let sid := req_store_id request in
  inventory (committed w) !! (pid, sid) = Some inv ->
  get_db (reserve_stock request) w = (Return resp, w1) ->
  resp_reservation_id resp = next_uuid w
  ∧ inventory (committed w1)
    = <[(pid, sid) := apply_values (reserve_update request inv (now w)) inv]>
        (inventory (committed w))
  ∧ reservations (committed w1) !! next_uuid w
    = Some (mkReservationDB (req_order_id request) pid sid (req_quantity request)
              PENDING (now w + 60 * req_ttl_minutes request) (now w) None None).
Proof.
  intros pid sid Hi H. subst pid sid.
  assert (H1 : (get_db (reserve_stock request) w).1 = Return resp)
    by (by rewrite H).
  assert (H2 : w1 = (get_db (reserve_stock request) w).2) by (by rewrite H).
  subst w1. clear H. revert H1.
  destruct w as [c s l lu bu pub t us n tr]. cbn in Hi.
  unfold next_uuid.
  reserve_cases_row request c l lu bu us n inv Hi Hl Hv Hq Hu;
    intros H; simplify_eq.
  split; [done|]. split; [done|]. apply lookup_insert_eq.
Qed.

Lemma cancel_success w rid r inv w2 :
  reservations (committed w) !! rid = Some r ->
  inventory (committed w) !! (product_id r, store_id r) = Some inv ->
  get_db (cancel_reservation rid) w = (Return true, w2) ->
  inventory (committed w2)
  = <[(product_id r, store_id r) := apply_values (cancel_update r (now w)) inv]>
      (inventory (committed w)).
Proof.
  intros Hr Hi H.
  assert (H1 : (get_db (cancel_reservation rid) w).1 = Return true)
    by (by rewrite H).
  assert (H2 : w2 = (get_db (cancel_reservation rid) w).2) by (by rewrite H).
  subst w2. clear H. revert H1.
  destruct w as [c s l lu bu pub t us n tr]. cbn in Hr, Hi.
  destruct lu, bu, (cancellable (status r)) eqn:Hc;
    destruct (decide (lock_key_of (product_id r) (store_id r) ∈ l)) as [Hl | Hl];
    unfold_m;
    run_with ltac:(unfold where_matches;
                   rewrite ?decide_False, ?decide_True, ?Hr, ?Hi, ?Hc by done);
    intros H; simplify_eq; done.
Qed.

(** C7.  A Reserve that succeeds and, with no write to the database in
    between, a Cancel of the reservation it returned that succeeds leave the
    inventory row with the available, reserved and total quantities it had
    before the Reserve, its version greater by exactly 2 and [last_updated]
    at the instant of the Cancel, later than the stamp the row had. *)
Theorem reserve_then_cancel_restores w request resp w1 w1' w2 inv :
  let key := (req_product_id request, req_store_id request) in
  inventory (committed w) !! key = Some inv ->
  get_db (reserve_stock request) w = (Return resp, w1) ->
  committed w1' = committed w1 ->
  last_updated inv < now w1' ->
  get_db (cancel_reservation (resp_reservation_id resp)) w1' = (Return true, w2) ->
  ∃ inv',
    inventory (committed w2) !! key = Some inv'
    ∧ available_quantity inv' = available_quantity inv
    ∧ reserved_quantity inv' = reserved_quantity inv
    ∧ total_quantity inv' = total_quantity inv
    ∧ version inv' = version inv + 2
    ∧ last_updated inv' = now w1'
    ∧ last_updated inv < last_updated inv'.
Proof.
  intros key Hi Hres Hsame Hclock Hcan.
  destruct (reserve_success _ _ _ _ _ Hi Hres) as (Hid & Hinv & Hrow).
  rewrite <- Hsame in Hinv, Hrow. rewrite <- Hid in Hrow.
  eapply cancel_success in Hcan; [ | exact Hrow | cbn; rewrite Hinv; apply lookup_insert_eq ].
  cbn in Hcan. eexists. split.
  - rewrite Hcan. apply lookup_insert_eq.
  - cbn. repeat split; lia.
Qed.

Lemma reserve_then_cancel_restores_witness :
  let w := sample_world (sample_inventory 5 0 5 1) ∅ 1000 in
  let request := mkReservationRequest "ORDER-1" P S_ 2 15 in
  let w1 := (get_db (reserve_stock request) w).2 in
  let w2 := (get_db (cancel_reservation "uuid-0") (advance 30 w1)).2 in
  inventory (committed w1) !! (P, S_) = Some (mkInventoryDB "inv-1" 3 2 5 2 1000)
  ∧ ∃ inv', inventory (committed w2) !! (P, S_) = Some inv'
      ∧ available_quantity inv' = 5 ∧ reserved_quantity inv' = 0
      ∧ total_quantity inv' = 5 ∧ version inv' = 1 + 2
      ∧ last_updated inv' = 1030.
Proof.
  intros w request w1 w2. split; [ vm_compute; reflexivity | ].
  destruct (reserve_then_cancel_restores w request
              (mkReservationResponse "uuid-0" PENDING 1900 "Stock reserved successfully")
              w1 (advance 30 w1) w2 (mkInventoryDB "inv-1" 5 0 5 1 0))
    as (inv' & H1 & H2 & H3 & H4 & H5 & H6 & _);
    [ vm_compute; reflexivity | vm_compute; reflexivity
    | vm_compute; reflexivity | vm_compute; reflexivity
    | vm_compute; reflexivity | ].
  exists inv'. repeat split; assumption.
Defined.

(** ** UpdateStock: the literal write against the relative one *)

(** With nothing served at the suspension, [update_stock_at] on the
    statement of the source is [update_stock]. *)
Lemma update_stock_at_quiet su w :
  update_stock_at stock_update (ret tt) su w = update_stock su w.
Proof. reflexivity. Qed.

(** A request ends with its session closed: what it sees next is the
    committed state. *)
Lemma get_db_closes_session {A} (m : M A) w :
  session (get_db m w).2 = committed (get_db m w).2.
Proof.
  unfold get_db, try_finally, bind, modify. cbn.
  destruct (m _) as [[a|e] w']; reflexivity.
Qed.

Lemma served_returns o w :
  (served o w).1 = Return tt ∧ (served o w).2 = (request o w).2.
Proof.
  unfold served, try_except, ret.
  destruct (request o w) as [[[]|e] w']; split; reflexivity.
Qed.

Lemma op_write_engine_write w o k inv inv' :
  op_write w o k inv inv' -> engine_write inv inv'.
Proof. destruct 1; constructor. Qed.

(** The requests served in between return control, leave the suspended
    session looking at the committed state, and move each inventory row by
    writes of the engine only. *)
Lemma concurrently_spec os w :
  session w = committed w ->
  (concurrently os w).1 = Return tt
  ∧ session (concurrently os w).2 = committed (concurrently os w).2
  ∧ ∀ k inv, inventory (committed w) !! k = Some inv ->
      ∃ row, inventory (committed (concurrently os w).2) !! k = Some row
             ∧ rtc engine_write inv row.
Proof.
  revert w. induction os as [|o os IH]; intros w Hs.
  - cbn. split; [done|]. split; [done|]. intros k inv Hk. by exists inv.
  - cbn [concurrently]. unfold bind.
    destruct (served_returns o w) as [Hr Hw].
    destruct (served o w) as [r w1] eqn:Ho. cbn in Hr, Hw. subst r w1.
    specialize (IH (request o w).2 (get_db_closes_session _ _)).
    destruct IH as (IH1 & IH2 & IH3).
    split; [done|]. split; [done|].
    intros k inv Hk.
    destruct (request_inventory o w) as [He | (k0 & i0 & i1 & Hk0 & Hw & He)].
    + apply IH3. by rewrite He.
    + destruct (decide (k0 = k)) as [-> | Hd].
      * destruct (IH3 k i1) as (row & Hrow & Hrtc);
          [ rewrite He; apply lookup_insert_eq | ].
        exists row. split; [done|]. simplify_eq.
        eapply rtc_l; [ eapply op_write_engine_write; eassumption | done ].
      * apply IH3. rewrite He. by rewrite lookup_insert_ne.
Qed.

Ltac unfold_at :=
  unfold update_stock_at, relative_statement, spec_stock_update, stock_update in *;
  unfold_m.

(** C10.  UpdateStock in a request of its own, with any number of requests
    of the engine served between its SELECT and its UPDATE.  Whenever the
    conditional UPDATE affects a row (the call returns [True]), the
    execution that writes the literal
    [new_available = snapshot.available + Δ] and the execution that issues
    the relative update of the specification in its place, from the same
    world and with the same requests in between, both return [True] and
    commit the same tables.  The row committed is the snapshot with
    available and total raised by [Δ], reserved untouched, the version
    moved on by one and the clock as [last_updated]; it has
    [total = available + reserved] and no negative counter.  With nothing
    served in between the execution is [update_stock]. *)
Theorem update_stock_write_refines_relative su os w :
  let k := (su_product_id su, su_store_id su) in
  let src := get_db (update_stock_at stock_update (concurrently os) su) w in
  let spec := get_db (update_stock_at relative_statement (concurrently os) su) w in
  src.1 = Return true ->
  (∀ w0, update_stock_at stock_update (concurrently []) su w0 = update_stock su w0)
  ∧ spec.1 = Return true
  ∧ committed spec.2 = committed src.2
  ∧ ∃ snapshot row',
      inventory (committed w) !! k = Some snapshot
      ∧ inventory (committed src.2) !! k = Some row'
      ∧ row' = mkInventoryDB (inv_id snapshot)
                 (available_quantity snapshot + quantity_change su)
                 (reserved_quantity snapshot)
                 (total_quantity snapshot + quantity_change su)
                 (version snapshot + 1) (now w)
      ∧ row_ok row'.
Proof.
  intros k src spec Hsrc. subst k src spec.
  split; [ intros w0; reflexivity | ]. revert Hsrc.
  destruct w as [c s l lu bu pub t us n tr].
  destruct lu;
    destruct (decide (lock_key_of (su_product_id su) (su_store_id su) ∈ l))
      as [Hl | Hl];
    destruct (inventory c !! (su_product_id su, su_store_id su))
      as [inv|] eqn:Hi;
    try (destruct (validate_inventory inv) eqn:Hv);
    try (destruct (available_quantity inv + quantity_change su <? 0) eqn:Hq);
    unfold_at;
    run_with ltac:(rewrite ?decide_False, ?decide_True, ?Hi, ?Hv, ?Hq by done);
    try (intros H; discriminate H).
  match goal with
  | |- context [concurrently os ?W] =>
      destruct (concurrently_spec os W eq_refl) as (Hr & Hs & Hrow);
      destruct (concurrently os W) as [r w'] eqn:Ho
  end.
  cbn in Hr, Hs, Hrow. subst r.
  destruct (Hrow _ _ Hi) as (row & Hk & Hrtc). clear Hrow.
  destruct w' as [c' s' l' lu' bu' pub' t' us' n' tr']. cbn in Hs, Hk. subst s'.
  apply engine_writes_version in Hrtc as [_ Heq].
  destruct lu', bu', (version row =? version inv) eqn:Hver;
    run_with ltac:(unfold where_matches; rewrite ?Hk, ?Hver);
    try (intros H; discriminate H).
  all: intros _; apply Z.eqb_eq in Hver; specialize (Heq Hver); subst row;
    apply validate_inventory_row_ok in Hv as [Hok _];
    (split; [done|]); (split; [done|]);
    eexists _, _; (split; [reflexivity|]); (split; [apply lookup_insert_eq|]);
    (split; [reflexivity|]); unfold row_ok in *; cbn; lia.
Qed.

Lemma update_stock_write_refines_relative_witness :
  let w := sample_world (sample_inventory 10 2 12 4)
             {[ "R" := pending_reservation ]} 1000 in
  let su := mkStockUpdate P S_ 5 "stock-in" None in
  let src := get_db (update_stock_at stock_update (concurrently [Confirm "R"]) su) w in
  let spec := get_db (update_stock_at relative_statement (concurrently [Confirm "R"]) su) w in
  src.1 = Return true
  ∧ spec.1 = Return true
  ∧ committed spec.2 = committed src.2
  ∧ inventory (committed src.2) !! (P, S_)
    = Some (mkInventoryDB "inv-1" 15 2 17 5 1000).
Proof.
  intros w su src spec.
  destruct (update_stock_write_refines_relative su [Confirm "R"] w)
    as (_ & H1 & H2 & snapshot & row' & H3 & H4 & H5 & _);
    [ vm_compute; reflexivity | ].
  split; [ vm_compute; reflexivity | ].
  split; [ exact H1 | ]. split; [ exact H2 | ].
  assert (snapshot = mkInventoryDB "inv-1" 10 2 12 4 0) as ->.
  { apply (inj Some). rewrite <- H3. vm_compute. reflexivity. }
  subst row'. exact H4.
Defined.

(** A request that commits to the row in between is detected: a Consume
    served between the SELECT and the UPDATE moves the version, the UPDATE
    affects no row, UpdateStock raises [OptimisticLockConflictError] and
    the committed row is the one Consume left. *)
Example concurrent_write_is_detected :
  let w := sample_world (sample_inventory 3 2 5 2)
             {[ "R" := confirmed_reservation ]} 1020 in
  let su := mkStockUpdate P S_ 5 "stock-in" None in
  let src := get_db (update_stock_at stock_update (concurrently [Consume "R"]) su) w in
  src.1 = Raise (OptimisticLockConflictError (resource_of P S_))
  ∧ inventory (committed src.2) !! (P, S_)
    = Some (mkInventoryDB "inv-1" 3 0 3 3 1020).
Proof. vm_compute. split; reflexivity. Qed.

(** A concurrent write is turned away by the guard: the UPDATE affects no
    row once another request of the engine has committed in between. *)
Lemma stale_snapshot_is_rejected su snapshot mid row t a :
  engine_write snapshot mid ->
  rtc engine_write mid row ->
  where_matches (stock_update su snapshot a t) row = false.
Proof.
  intros H1 H2. apply engine_write_version in H1.
  apply engine_writes_version in H2 as [Hle _].
  unfold where_matches. cbn. lia.
Qed.

(** The statement [update_stock] issues is [stock_update] on the row it has
    just read, and on the tables it runs against it does what the relative
    statement of the specification does. *)
Lemma update_stock_runs_relative_update w su u n :
  UpdateInventory u n ∈ effects_of (update_stock su) w ->
  ∃ inv,
    inventory (session w) !! (su_product_id su, su_store_id su) = Some inv
    ∧ u = stock_update su inv (available_quantity inv + quantity_change su) (now w)
    ∧ run_inventory_update u (session w)
      = run_inventory_update (spec_stock_update su inv (now w)) (session w).
Proof.
  destruct w as [c s l lu bu pub t us k tr].
  unfold effects_of, with_trace.
  destruct lu, bu;
    destruct (decide (lock_key_of (su_product_id su) (su_store_id su) ∈ l))
      as [Hl | Hl];
    destruct (inventory s !! (su_product_id su, su_store_id su))
      as [inv|] eqn:Hi;
    try (destruct (validate_inventory inv) eqn:Hv);
    try (destruct (available_quantity inv + quantity_change su <? 0) eqn:Hq);
    unfold_m;
    run_with ltac:(unfold where_matches;
                   rewrite ?decide_False, ?decide_True, ?Hi, ?Hv, ?Hq,
                     ?Z.eqb_refl by done);
    intros H; apply list_elem_of_In in H; cbn in H;
    intuition (try discriminate); simplify_eq;
    (eexists; split; [reflexivity|]; split; [reflexivity|]);
    unfold run_inventory_update; cbn; rewrite Hi;
    unfold where_matches; cbn; rewrite Z.eqb_refl; reflexivity.
Qed.

(** * Further properties of the service, the routes and the schemas *)

Ltac unfold_x :=
  unfold api_update_stock, build_StockUpdate, api_get_stock_level, get_stock_level in *;
  unfold_m.

(** ** Reserve, case by case *)

(** X1.  Reserve on a free lock, a valid row with enough stock, a fresh
    identifier and a working broker returns a PENDING response that expires
    [ttl_minutes] later, commits the row with [quantity] moved from
    available to reserved under the next version together with the new
    reservation, publishes one [reservation_created] and leaves the lock
    free. *)
Theorem reserve_happy_path w request inv :
  let pid := req_product_id request in
  let sid := req_store_id request in
  lock_service_up w = true ->
  lock_key_of pid sid ∉ locks w ->
  inventory (committed w) !! (pid, sid) = Some inv ->
  validate_inventory inv = true ->
  req_quantity request ≤ available_quantity inv ->
  reservations (committed w) !! next_uuid w = None ->
  event_bus_up w = true ->
  let res := get_db (reserve_stock request) w in
  let expires := now w + 60 * req_ttl_minutes request in
  res.1 = Return (mkReservationResponse (next_uuid w) PENDING expires
                    "Stock reserved successfully")
  ∧ inventory (committed res.2) !! (pid, sid)
    = Some (mkInventoryDB (inv_id inv)
              (available_quantity inv - req_quantity request)
              (reserved_quantity inv + req_quantity request)
              (total_quantity inv) (version inv + 1) (now w))
  ∧ reservations (committed res.2) !! next_uuid w
    = Some (mkReservationDB (req_order_id request) pid sid
              (req_quantity request) PENDING expires (now w) None None)
  ∧ session res.2 = committed res.2
  ∧ locks res.2 = locks w
  ∧ (∃ m, published res.2 = ("inventory_events", m) :: published w
          ∧ event_type m = "reservation_created")
  ∧ List.filter is_inventory_update (effects_of (get_db (reserve_stock request)) w)
    = [UpdateInventory (reserve_update request inv (now w)) 1].
Proof.
  intros pid sid Hup Hfree Hi Hval Hq Hid Hbus.
  destruct w as [c s l lu bu pub t us n tr]. cbn in Hup, Hfree, Hi, Hid, Hbus.
  subst lu bu pid sid. unfold next_uuid in *; cbn in Hid.
  assert (Hlt : (available_quantity inv <? req_quantity request) = false) by lia.
  unfold effects_of, with_trace. unfold_m.
  run_with ltac:(unfold where_matches, next_uuid;
                 rewrite ?decide_False, ?Hi, ?Hval, ?Hlt, ?Hid, ?Z.eqb_refl by done).
  split; [reflexivity|]. split; [apply lookup_insert_eq|].
  split; [apply lookup_insert_eq|]. split; [reflexivity|].
  split; [by apply release_after_acquire|].
  split; [eexists; split; reflexivity | reflexivity].
Qed.

Lemma reserve_happy_path_witness :
  let w := sample_world (sample_inventory 5 0 5 1) ∅ 1000 in
  let request := mkReservationRequest "ORDER-1" P S_ 3 15 in
  let res := get_db (reserve_stock request) w in
  res.1 = Return (mkReservationResponse "uuid-0" PENDING 1900
                    "Stock reserved successfully")
  ∧ inventory (committed res.2) !! (P, S_)
    = Some (mkInventoryDB "inv-1" 2 3 5 2 1000).
Proof.
  intros w request res.
  destruct (reserve_happy_path w request (mkInventoryDB "inv-1" 5 0 5 1 0))
    as (H1 & H2 & _);
    [ reflexivity | vm_compute; set_solver | vm_compute; reflexivity
    | reflexivity | vm_compute; discriminate | vm_compute; reflexivity
    | reflexivity | ].
  split; [exact H1 | exact H2].
Defined.

(** X2.  Reserve on a key that is held, or with the lock service down,
    fails with [DistributedLockFailedError] (503) and commits nothing.  Its
    [finally] block still calls [release_lock]: when the service is up the
    key of the other holder is deleted. *)
Theorem reserve_lock_unavailable w request :
  let key := lock_key_of (req_product_id request) (req_store_id request) in
  lock_service_up w = false ∨ key ∈ locks w ->
  let res := get_db (reserve_stock request) w in
  res.1 = Raise (DistributedLockFailedError key)
  ∧ committed res.2 = committed w
  ∧ locks res.2 = (if lock_service_up w then locks w ∖ {[key]} else locks w)
  ∧ List.filter is_inventory_update (effects_of (get_db (reserve_stock request)) w) = []
  ∧ http_status (get_db (api_reserve_stock request) w).1 = 503.
Proof.
  intros key H. subst key.
  destruct w as [c s l lu bu pub t us n tr]. cbn in H.
  unfold effects_of, with_trace.
  destruct lu.
  - destruct H as [H | H]; [discriminate|].
    unfold_m. run_with ltac:(rewrite ?decide_True by done). by repeat split.
  - unfold_m. step. by repeat split.
Qed.

Lemma reserve_lock_unavailable_witness :
  let w := held_elsewhere (sample_world (sample_inventory 5 0 5 1) ∅ 1000) in
  let request := mkReservationRequest "ORDER-1" P S_ 3 15 in
  (get_db (reserve_stock request) w).1
    = Raise (DistributedLockFailedError (lock_key_of P S_))
  ∧ locks (get_db (reserve_stock request) w).2 = ∅.
Proof.
  intros w request.
  destruct (reserve_lock_unavailable w request) as (H1 & _ & H3 & _);
    [ right; vm_compute; set_solver | ].
  split; [exact H1 | ]. rewrite H3. vm_compute. reflexivity.
Defined.

(** X3.  Reserve of more than is available fails with
    [InsufficientStockError] carrying the available and the requested
    quantity (400); nothing is committed, no UPDATE is issued and the lock
    is back to free. *)
Theorem reserve_insufficient_stock w request inv :
  let pid := req_product_id request in
  let sid := req_store_id request in
  lock_service_up w = true ->
  lock_key_of pid sid ∉ locks w ->
  inventory (committed w) !! (pid, sid) = Some inv ->
  validate_inventory inv = true ->
  available_quantity inv < req_quantity request ->
  let res := get_db (reserve_stock request) w in
  res.1 = Raise (InsufficientStockError (available_quantity inv) (req_quantity request))
  ∧ committed res.2 = committed w
  ∧ session res.2 = committed w
  ∧ locks res.2 = locks w
  ∧ List.filter is_inventory_update (effects_of (get_db (reserve_stock request)) w) = []
  ∧ http_status (get_db (api_reserve_stock request) w).1 = 400.
Proof.
  intros pid sid Hup Hfree Hi Hval Hq.
  destruct w as [c s l lu bu pub t us n tr]. cbn in Hup, Hfree, Hi.
  subst lu pid sid.
  assert (Hlt : (available_quantity inv <? req_quantity request) = true) by lia.
  unfold effects_of, with_trace. unfold_m.
  run_with ltac:(rewrite ?decide_False, ?Hi, ?Hval, ?Hlt by done).
  repeat split. by apply release_after_acquire.
Qed.

Lemma reserve_insufficient_stock_witness :
  let w := sample_world (sample_inventory 2 0 2 1) ∅ 1000 in
  let request := mkReservationRequest "ORDER-1" P S_ 5 30 in
  (get_db (reserve_stock request) w).1 = Raise (InsufficientStockError 2 5)
  ∧ http_status (get_db (api_reserve_stock request) w).1 = 400.
Proof.
  intros w request.
  destruct (reserve_insufficient_stock w request (mkInventoryDB "inv-1" 2 0 2 1 0))
    as (H1 & _ & _ & _ & _ & H6);
    [ reflexivity | vm_compute; set_solver | vm_compute; reflexivity
    | reflexivity | vm_compute; reflexivity | ].
  split; [exact H1 | exact H6].
Defined.

(** X4.  Reserve for a (product, store) without inventory row fails with
    [InventoryNotFoundError] (404) and commits nothing. *)
Theorem reserve_inventory_not_found w request :
  let pid := req_product_id request in
  let sid := req_store_id request in
  lock_service_up w = true ->
  lock_key_of pid sid ∉ locks w ->
  inventory (committed w) !! (pid, sid) = None ->
  let res := get_db (reserve_stock request) w in
  res.1 = Raise (InventoryNotFoundError pid sid)
  ∧ committed res.2 = committed w
  ∧ locks res.2 = locks w
  ∧ http_status (get_db (api_reserve_stock request) w).1 = 404.
Proof.
  intros pid sid Hup Hfree Hi.
  destruct w as [c s l lu bu pub t us n tr]. cbn in Hup, Hfree, Hi.
  subst lu pid sid. unfold_m.
  run_with ltac:(rewrite ?decide_False, ?Hi by done).
  repeat split. by apply release_after_acquire.
Qed.

Lemma reserve_inventory_not_found_witness :
  let w := sample_world ∅ ∅ 1000 in
  let request := mkReservationRequest "ORDER-1" P S_ 1 30 in
  (get_db (reserve_stock request) w).1 = Raise (InventoryNotFoundError P S_)
  ∧ http_status (get_db (api_reserve_stock request) w).1 = 404.
Proof.
  intros w request.
  destruct (reserve_inventory_not_found w request) as (H1 & _ & _ & H4);
    [ reflexivity | vm_compute; set_solver | vm_compute; reflexivity | ].
  split; [exact H1 | exact H4].
Defined.

(** X5.  A stored row that the [Inventory] model rejects (a negative
    counter, a version below 1, or [total <> available + reserved]) cannot
    be read through [get_inventory]: Reserve, UpdateStock and the stock-level
    route all end with a validation error turned into a 500, and nothing is
    committed. *)
Theorem invalid_row_blocks_the_key w pid sid inv :
  lock_service_up w = true ->
  lock_key_of pid sid ∉ locks w ->
  inventory (committed w) !! (pid, sid) = Some inv ->
  validate_inventory inv = false ->
  (∀ request, req_product_id request = pid -> req_store_id request = sid ->
     (get_db (reserve_stock request) w).1 = Raise PydanticValidationError
     ∧ committed (get_db (reserve_stock request) w).2 = committed w
     ∧ http_status (get_db (api_reserve_stock request) w).1 = 500)
  ∧ (∀ su, su_product_id su = pid -> su_store_id su = sid ->
     (get_db (update_stock su) w).1 = Raise PydanticValidationError
     ∧ committed (get_db (update_stock su) w).2 = committed w)
  ∧ http_status (get_db (api_get_stock_level pid sid) w).1 = 500.
Proof.
  intros Hup Hfree Hi Hval.
  destruct w as [c s l lu bu pub t us n tr]. cbn in Hup, Hfree, Hi. subst lu.
  split; [ | split ].
  - intros request <- <-. unfold_x.
    run_with ltac:(rewrite ?decide_False, ?Hi, ?Hval by done). by repeat split.
  - intros su <- <-. unfold_x.
    run_with ltac:(rewrite ?decide_False, ?Hi, ?Hval by done). by repeat split.
  - unfold_x. run_with ltac:(rewrite ?Hi, ?Hval by done). done.
Qed.

Lemma invalid_row_blocks_the_key_witness :
  let w := sample_world {[ (P, S_) := mkInventoryDB "inv-1" 5 (-2) 3 2 1020 ]} ∅ 1100 in
  http_status (get_db (api_get_stock_level P S_) w).1 = 500
  ∧ (get_db (reserve_stock (mkReservationRequest "ORDER-2" P S_ 1 15)) w).1
    = Raise PydanticValidationError.
Proof.
  intros w.
  destruct (invalid_row_blocks_the_key w P S_ (mkInventoryDB "inv-1" 5 (-2) 3 2 1020))
    as (H1 & _ & H3);
    [ reflexivity | vm_compute; set_solver | vm_compute; reflexivity
    | reflexivity | ].
  split; [exact H3 | ].
  by destruct (H1 (mkReservationRequest "ORDER-2" P S_ 1 15) eq_refl eq_refl).
Defined.

(** ** What every request does *)

(** A request either fails and leaves the committed tables as they were, or
    returns, and then the broker was up and exactly one message was added:
    the event of the operation, on the default topic, stamped with the
    clock. *)
Lemma request_outcome o w :
  let res := request o w in
  (∃ e, res.1 = Raise e ∧ committed res.2 = committed w)
  ∨ (res.1 = Return tt
     ∧ event_bus_up w = true
     ∧ ∃ pl, published res.2
             = ("inventory_events",
                mkEventMessage (event_of o) pl (now w) "inventory_service" "1.0")
               :: published w).
Proof.
  destruct w as [c s l lu bu pub t us n tr].
  destruct o as [rq | rid | rid | rid | su]; cbn [event_of].
  - reserve_cases rq c l lu bu us n Hl Hi Hv Hq Hu; eauto 6.
  - unfold_m. exec; eauto 6.
  - unfold_m. exec; eauto 6.
  - unfold_m. exec; eauto 6.
  - unfold_m. exec; eauto 6.
Qed.

(** X6.  A request that fails commits nothing: the committed tables are
    those it started from. *)
Theorem failed_request_commits_nothing o w e :
  (request o w).1 = Raise e ->
  committed (request o w).2 = committed w.
Proof.
  intros H. destruct (request_outcome o w) as [(e' & _ & Hc) | (Hr & _)].
  - exact Hc.
  - rewrite Hr in H. discriminate H.
Qed.

Lemma failed_request_commits_nothing_witness :
  let w := sample_world (sample_inventory 2 0 2 1) ∅ 1000 in
  let o := Reserve (mkReservationRequest "ORDER-1" P S_ 5 30) in
  (request o w).1 = Raise (InsufficientStockError 2 5)
  ∧ committed (request o w).2 = committed w.
Proof.
  intros w o. split; [ vm_compute; reflexivity | ].
  apply (failed_request_commits_nothing o w (InsufficientStockError 2 5)).
  vm_compute; reflexivity.
Defined.

(** X7.  A request that returns has published exactly one message: the
    event of its operation, on topic [inventory_events], with source
    [inventory_service], version [1.0] and the clock as timestamp. *)
Theorem successful_request_publishes_its_event o w :
  (request o w).1 = Return tt ->
  ∃ pl, published (request o w).2
        = ("inventory_events",
           mkEventMessage (event_of o) pl (now w) "inventory_service" "1.0")
          :: published w.
Proof.
  intros H. destruct (request_outcome o w) as [(e' & He & _) | (_ & _ & Hp)].
  - rewrite He in H. discriminate H.
  - exact Hp.
Qed.

Lemma successful_request_publishes_its_event_witness :
  let w := sample_world (sample_inventory 3 2 5 2)
             {[ "R" := confirmed_reservation ]} 1020 in
  ∃ pl, published (request (Consume "R") w).2
        = ("inventory_events",
           mkEventMessage "reservation_consumed" pl 1020 "inventory_service" "1.0")
          :: published w.
Proof.
  intros w.
  apply (successful_request_publishes_its_event (Consume "R") w).
  vm_compute; reflexivity.
Defined.

(** X8.  With the broker down no operation goes through: every request
    fails and the committed tables stay as they were. *)
Theorem broker_down_blocks_every_operation o w :
  event_bus_up w = false ->
  (∃ e, (request o w).1 = Raise e)
  ∧ committed (request o w).2 = committed w.
Proof.
  intros H. destruct (request_outcome o w) as [(e' & He & Hc) | (_ & Hb & _)].
  - eauto.
  - rewrite Hb in H. discriminate H.
Qed.

Lemma broker_down_blocks_every_operation_witness :
  let w := mkWorld (mkTables (sample_inventory 10 2 12 4) ∅)
             (mkTables (sample_inventory 10 2 12 4) ∅) ∅ true false [] 1000
             sample_uuids 0 [] in
  committed (request (UpdateStock (mkStockUpdate P S_ 5 "stock-in" None)) w).2
  = committed w.
Proof.
  intros w.
  apply (broker_down_blocks_every_operation
           (UpdateStock (mkStockUpdate P S_ 5 "stock-in" None)) w).
  reflexivity.
Defined.

(** ** Confirm *)

(** X9.  Confirm of a PENDING reservation whose deadline has not passed
    (the deadline instant included) marks it CONFIRMED, stamps
    [confirmed_at] with the clock, leaves every inventory row and every lock
    alone, and commits. *)
Theorem confirm_happy_path w rid r :
  reservations (committed w) !! rid = Some r ->
  status r = PENDING ->
  now w ≤ expires_at r ->
  event_bus_up w = true ->
  let res := get_db (confirm_reservation rid) w in
  res.1 = Return true
  ∧ reservations (committed res.2) !! rid
    = Some (mkReservationDB (order_id r) (product_id r) (store_id r) (quantity r)
              CONFIRMED (expires_at r) (created_at r) (Some (now w))
              (cancelled_at r))
  ∧ inventory (committed res.2) = inventory (committed w)
  ∧ locks res.2 = locks w
  ∧ http_status (get_db (api_confirm_reservation rid) w).1 = 200.
Proof.
  intros Hr Hs Ht Hb. destruct w as [c s l lu bu pub t us n tr].
  cbn in Hr, Ht, Hb. subst bu.
  assert (Hlt : (expires_at r <? t) = false) by lia.
  unfold_m. run_with ltac:(rewrite ?Hr, ?Hs, ?Hlt by done).
  repeat split. rewrite lookup_alter_eq, Hr. reflexivity.
Qed.

Lemma confirm_happy_path_witness :
  let w := sample_world (sample_inventory 3 2 5 2)
             {[ "R" := pending_reservation ]} 1900 in
  let res := get_db (confirm_reservation "R") w in
  res.1 = Return true
  ∧ inventory (committed res.2) = inventory (committed w).
Proof.
  intros w res.
  destruct (confirm_happy_path w "R" pending_reservation) as (H1 & _ & H3 & _);
    [ vm_compute; reflexivity | reflexivity | vm_compute; discriminate
    | reflexivity | ].
  split; [exact H1 | exact H3].
Defined.

(** X10.  The confirm route answers 200 when the service returns [True];
    whenever the service raises, whatever it raised (a missing reservation,
    a wrong status, an expiry), the [except] block fails on the undefined
    name [reservation_id] and the client gets a 500. *)
Theorem confirm_route_answers_200_or_500 w rid :
  match (confirm_reservation rid w).1 with
  | Return true => http_status (api_confirm_reservation rid w).1 = 200
  | _ => (api_confirm_reservation rid w).1 = Raise (NameError "reservation_id")
         ∧ http_status (api_confirm_reservation rid w).1 = 500
  end.
Proof.
  unfold api_confirm_reservation, try_except, bind.
  destruct (confirm_reservation rid w) as [[[] | e] w']; cbn; auto.
Qed.

(** X11.  An identifier that names no reservation: Confirm raises
    [ReservationNotFoundError] (a 404 error), Consume and Cancel raise a
    plain [Exception] that the routes turn into 500, Expire returns; none of
    them writes. *)
Theorem unknown_reservation w rid :
  reservations (session w) !! rid = None ->
  (confirm_reservation rid w).1 = Raise (ReservationNotFoundError rid)
  ∧ status_code_of (ReservationNotFoundError rid) = Some 404
  ∧ (consume_reservation rid w).1 = Raise (PlainException "Reservation not found")
  ∧ http_status (api_consume_reservation rid w).1 = 500
  ∧ (cancel_reservation rid w).1 = Raise (PlainException "Reservation not found")
  ∧ http_status (api_cancel_reservation rid w).1 = 500
  ∧ (_expire_reservation rid w).1 = Return tt
  ∧ same_tables w (confirm_reservation rid w).2
  ∧ same_tables w (consume_reservation rid w).2
  ∧ same_tables w (cancel_reservation rid w).2
  ∧ same_tables w (_expire_reservation rid w).2.
Proof.
  intros Hr. destruct w as [c s l lu bu pub t us n tr]. cbn in Hr.
  unfold same_tables. unfold_m. run_with ltac:(rewrite ?Hr).
  repeat split.
Qed.

Lemma unknown_reservation_witness :
  let w := sample_world (sample_inventory 3 2 5 2) ∅ 1000 in
  (confirm_reservation "nobody" w).1 = Raise (ReservationNotFoundError "nobody")
  ∧ http_status (api_consume_reservation "nobody" w).1 = 500.
Proof.
  intros w.
  destruct (unknown_reservation w "nobody") as (H1 & _ & _ & H4 & _);
    [ vm_compute; reflexivity | ].
  split; [exact H1 | exact H4].
Defined.

(** ** UpdateStock *)

(** X12.  UpdateStock on a free lock, a valid row and a working broker.  A
    change that keeps available at zero or above and that the database can
    take (the change, the new total and the next version are 64-bit
    integers) is added to available and to total, reserved is left alone,
    the version moves on by one and the row is committed.  A change that
    would take available below zero is refused with the plain exception
    "Stock cannot go below zero" and nothing is committed. *)
Theorem update_stock_applies_or_refuses w su inv :
  let pid := su_product_id su in
  let sid := su_store_id su in
  lock_service_up w = true ->
  lock_key_of pid sid ∉ locks w ->
  inventory (committed w) !! (pid, sid) = Some inv ->
  validate_inventory inv = true ->
  event_bus_up w = true ->
  let res := get_db (update_stock su) w in
  if 0 <=? available_quantity inv + quantity_change su then
    fits_integer (quantity_change su) ->
    fits_integer (total_quantity inv + quantity_change su) ->
    fits_integer (version inv + 1) ->
    res.1 = Return true
    ∧ inventory (committed res.2) !! (pid, sid)
      = Some (mkInventoryDB (inv_id inv)
                (available_quantity inv + quantity_change su)
                (reserved_quantity inv)
                (total_quantity inv + quantity_change su)
                (version inv + 1) (now w))
    ∧ fits_integer (available_quantity inv + quantity_change su)
    ∧ locks res.2 = locks w
  else
    res.1 = Raise (PlainException "Stock cannot go below zero")
    ∧ committed res.2 = committed w
    ∧ locks res.2 = locks w
    ∧ List.filter is_inventory_update (effects_of (get_db (update_stock su)) w) = [].
Proof.
  intros pid sid Hup Hfree Hi Hval Hb.
  destruct w as [c s l lu bu pub t us n tr]. cbn in Hup, Hfree, Hi, Hb.
  subst lu bu pid sid. unfold effects_of, with_trace.
  destruct (0 <=? available_quantity inv + quantity_change su) eqn:Hq.
  - intros Hc Ht _.
    assert (Hlt : (available_quantity inv + quantity_change su <? 0) = false) by lia.
    assert (Hfit : fits_integer (available_quantity inv + quantity_change su)).
    { apply validate_inventory_row_ok in Hval as [Hok _].
      unfold row_ok, fits_integer in *. lia. }
    clear Hc Ht. revert Hfit.
    unfold_m.
    run_with ltac:(unfold where_matches;
                   rewrite ?decide_False, ?Hi, ?Hval, ?Hlt, ?Z.eqb_refl by done).
    intros Hfit.
    repeat split; [ apply lookup_insert_eq | apply Hfit | apply Hfit
                  | by apply release_after_acquire ].
  - assert (Hlt : (available_quantity inv + quantity_change su <? 0) = true) by lia.
    unfold_m.
    run_with ltac:(rewrite ?decide_False, ?Hi, ?Hval, ?Hlt by done).
    repeat split. by apply release_after_acquire.
Qed.

Lemma update_stock_applies_or_refuses_witness :
  let w := sample_world (sample_inventory 10 2 12 4) ∅ 1000 in
  let res := get_db (update_stock (mkStockUpdate P S_ 5 "stock-in" None)) w in
  res.1 = Return true
  ∧ inventory (committed res.2) !! (P, S_)
    = Some (mkInventoryDB "inv-1" 15 2 17 5 1000).
Proof.
  intros w res.
  pose proof (update_stock_applies_or_refuses w
                (mkStockUpdate P S_ 5 "stock-in" None)
                (mkInventoryDB "inv-1" 10 2 12 4 0)) as H.
  cbn zeta in H.
  destruct H as (H1 & H2 & _);
    [ reflexivity | vm_compute; set_solver | vm_compute; reflexivity
    | reflexivity | reflexivity
    | unfold fits_integer; cbn; lia | unfold fits_integer; cbn; lia
    | unfold fits_integer; cbn; lia | ].
  split; [exact H1 | exact H2].
Defined.

(** ** The lock manager *)

Lemma evict_after_acquire (k : string) (l : gset string) :
  ({[k]} ∪ l) ∖ {[k]} = l ∖ {[k]}.
Proof.
  apply set_eq. intros x.
  rewrite !elem_of_difference, elem_of_union, !elem_of_singleton.
  split; [ intros [[-> | ?] ?]; done | intros [? ?]; split; [by right | done] ].
Qed.


(** X13.  A key that is free is acquired; while it is held every further
    acquisition fails and changes nothing; once released it can be acquired
    again.  Release of a key that is not held changes nothing. *)
Theorem lock_is_exclusive w key ttl ttl' :
  lock_service_up w = true ->
  key ∉ locks w ->
  let w1 := (acquire_lock key ttl w).2 in
  (acquire_lock key ttl w).1 = Return true
  ∧ key ∈ locks w1
  ∧ (acquire_lock key ttl' w1).1 = Return false
  ∧ locks (acquire_lock key ttl' w1).2 = locks w1
  ∧ locks (release_lock key w1).2 = locks w
  ∧ (acquire_lock key ttl' (release_lock key w1).2).1 = Return true
  ∧ locks (release_lock key w).2 = locks w.
Proof.
  intros Hup Hfree. destruct w as [c s l lu bu pub t us n tr].
  cbn in Hup, Hfree. subst lu.
  assert (Hin : key ∈ {[key]} ∪ l)
    by (apply elem_of_union_l; by apply elem_of_singleton).
  assert (Hout : key ∉ ({[key]} ∪ l) ∖ {[key]}).
  { intros H. apply elem_of_difference in H as [_ H]. apply H.
    by apply elem_of_singleton. }
  assert (Hsame : l ∖ {[key]} = l).
  { rewrite <- (evict_after_acquire key l). by apply release_after_acquire. }
  unfold_m.
  run_with ltac:(rewrite ?(decide_False (P := key ∈ l)),
                   ?(decide_True (P := key ∈ {[key]} ∪ l)),
                   ?(decide_False (P := key ∈ ({[key]} ∪ l) ∖ {[key]})) by done).
  repeat split; [ done | by apply release_after_acquire | done ].
Qed.

Lemma lock_is_exclusive_witness :
  let w := sample_world ∅ ∅ 1000 in
  let w1 := (acquire_lock (lock_key_of P S_) 30 w).2 in
  (acquire_lock (lock_key_of P S_) 30 w).1 = Return true
  ∧ (acquire_lock (lock_key_of P S_) 30 w1).1 = Return false.
Proof.
  intros w w1.
  destruct (lock_is_exclusive w (lock_key_of P S_) 30 30) as (H1 & _ & H3 & _);
    [ reflexivity | vm_compute; set_solver | ].
  split; [exact H1 | exact H3].
Defined.

(** X14.  Reserve and UpdateStock never leave their lock held, and they
    evict whoever holds it: whatever the outcome, after the request the
    locks are those of before without the operation's key (with the lock
    service down they are untouched). *)
Theorem operation_key_is_free_afterwards o w key :
  key_of_op o = Some key ->
  locks (request o w).2
  = if lock_service_up w then locks w ∖ {[key]} else locks w.
Proof.
  intros Hk. destruct w as [c s l lu bu pub t us n tr].
  destruct o as [rq | rid | rid | rid | su]; cbn in Hk; simplify_eq.
  - reserve_cases rq c l lu bu us n Hl Hi Hv Hq Hu;
      try reflexivity; try apply evict_after_acquire.
  - destruct lu, bu;
      destruct (decide (lock_key_of (su_product_id su) (su_store_id su) ∈ l))
        as [Hl | Hl];
      destruct (inventory c !! (su_product_id su, su_store_id su))
        as [inv|] eqn:Hi;
      try (destruct (validate_inventory inv) eqn:Hv);
      try (destruct (available_quantity inv + quantity_change su <? 0) eqn:Hq);
      unfold_m;
      run_with ltac:(unfold where_matches;
                     rewrite ?decide_False, ?decide_True, ?Hi, ?Hv, ?Hq,
                       ?Z.eqb_refl by done);
      try reflexivity; try apply evict_after_acquire.
Qed.

Lemma operation_key_is_free_afterwards_witness :
  let w := held_elsewhere (sample_world (sample_inventory 10 2 12 4) ∅ 1000) in
  locks (request (UpdateStock (mkStockUpdate P S_ 5 "stock-in" None)) w).2
  = locks w ∖ {[lock_key_of P S_]}.
Proof.
  intros w.
  apply (operation_key_is_free_afterwards
           (UpdateStock (mkStockUpdate P S_ 5 "stock-in" None)) w).
  reflexivity.
Defined.

(** ** The remaining routes *)

(** X15.  POST /inventory/update-stock never reaches the service: building
    the [StockUpdate] without its required [reason] fails, so the route
    answers 500 for every body, touches no table and no lock, and issues no
    statement. *)
Theorem update_stock_route_always_fails w body :
  let res := get_db (api_update_stock body) w in
  http_status res.1 = 500
  ∧ committed res.2 = committed w
  ∧ locks res.2 = locks w
  ∧ published res.2 = published w
  ∧ List.filter is_inventory_update (effects_of (get_db (api_update_stock body)) w) = []
  ∧ List.filter is_lock_call (effects_of (get_db (api_update_stock body)) w) = [].
Proof.
  destruct w as [c s l lu bu pub t us n tr].
  unfold effects_of, with_trace. unfold_x. step. repeat split.
Qed.

(** X16.  GET /inventory/stock/{product_id}/{store_id} answers 404 when no
    row exists, the counters of the row when it passes the [Inventory]
    model, and 500 when it does not; it never writes. *)
Theorem stock_level_route w pid sid :
  let res := get_db (api_get_stock_level pid sid) w in
  res.1 = match inventory (committed w) !! (pid, sid) with
          | None => Raise (HTTPException 404 "Stock level not found")
          | Some inv =>
              if validate_inventory inv
              then Return (mkStockLevel pid sid (available_quantity inv)
                             (reserved_quantity inv) (total_quantity inv)
                             (last_updated inv))
              else Raise (HTTPException 500 "Internal server error")
          end
  ∧ committed res.2 = committed w
  ∧ locks res.2 = locks w.
Proof.
  destruct w as [c s l lu bu pub t us n tr].
  destruct (inventory c !! (pid, sid)) as [inv|] eqn:Hi;
    [ destruct (validate_inventory inv) eqn:Hv | ];
    unfold_x; run_with ltac:(rewrite ?Hi, ?Hv); repeat split.
Qed.

(** ** What a request commits to the reservations *)

Lemma cancellable_step s : cancellable s = true -> lifecycle_step s CANCELLED.
Proof. destruct s; cbn; try discriminate; constructor. Qed.

(** A request leaves the committed reservations as they were, adds the one
    PENDING row of Reserve under a key that was free, or moves one existing
    row along a step of the lifecycle. *)
Lemma request_reservations o w :
  let res := request o w in
  reservations (committed res.2) = reservations (committed w)
  ∨ (∃ r, reservations (committed w) !! next_uuid w = None
          ∧ status r = PENDING
          ∧ reservations (committed res.2)
            = <[next_uuid w := r]> (reservations (committed w)))
  ∨ (∃ rid r s ct cc,
       reservations (committed w) !! rid = Some r
       ∧ lifecycle_step (status r) s
       ∧ reservations (committed res.2)
         = alter (set_reservation_status s ct cc) rid (reservations (committed w))).
Proof.
  destruct w as [c s l lu bu pub t us n tr].
  destruct o as [rq | rid | rid | rid | su].
  - reserve_cases rq c l lu bu us n Hl Hi Hv Hq Hu; auto.
    right; left. eexists. split; [reflexivity|]. split; [|reflexivity]. reflexivity.
  - unfold_m. exec; auto.
    right; right. eexists _, _, _, _, _. split; [eassumption|].
    split; [|reflexivity].
    match goal with H : negb (status_eqb _ _) = false |- _ =>
      apply negb_false_iff, status_eqb_eq in H; rewrite H end.
    constructor.
  - unfold_m. exec; auto.
    right; right. eexists _, _, _, _, _. split; [eassumption|].
    split; [|reflexivity].
    match goal with H : negb (status_eqb _ _) = false |- _ =>
      apply negb_false_iff, status_eqb_eq in H; rewrite H end.
    constructor.
  - unfold_m. exec; auto.
    all: right; right; eexists _, _, _, _, _; (split; [eassumption|]);
      (split; [|reflexivity]); apply cancellable_step;
      by destruct (cancellable _).
  - unfold_m. exec; auto.
Qed.

(** X17.  Whenever a request changes the committed status of a
    reservation, the change is one of PENDING to CONFIRMED, CONFIRMED to
    CONSUMED, PENDING to CANCELLED or CONFIRMED to CANCELLED; in particular
    no request commits the status EXPIRED and none leaves CONSUMED,
    CANCELLED or EXPIRED. *)
Theorem committed_status_changes_follow_lifecycle o w rid r r' :
  reservations (committed w) !! rid = Some r ->
  reservations (committed (request o w).2) !! rid = Some r' ->
  status r' ≠ status r ->
  lifecycle_step (status r) (status r').
Proof.
  intros Hr Hr' Hne.
  destruct (request_reservations o w)
    as [He | [(r0 & Hnone & _ & He) | (rid0 & r0 & s & ct & cc & Hr0 & Hstep & He)]];
    rewrite He in Hr'.
  - congruence.
  - destruct (decide (next_uuid w = rid)) as [<- | Hd]; [congruence|].
    rewrite lookup_insert_ne in Hr' by done. congruence.
  - destruct (decide (rid0 = rid)) as [-> | Hd].
    + rewrite lookup_alter_eq, Hr0 in Hr'. cbn in Hr'. simplify_eq. exact Hstep.
    + rewrite lookup_alter_ne in Hr' by done. congruence.
Qed.

Lemma committed_status_changes_follow_lifecycle_witness :
  let w := sample_world (sample_inventory 3 2 5 2)
             {[ "R" := confirmed_reservation ]} 1020 in
  lifecycle_step CONFIRMED CONSUMED.
Proof.
  intros w.
  apply (committed_status_changes_follow_lifecycle (Consume "R") w "R"
           confirmed_reservation
           (mkReservationDB "ORDER-1" P S_ 2 CONSUMED 1900 1000 (Some 1010) None));
    [ vm_compute; reflexivity | vm_compute; reflexivity | discriminate ].
Defined.

(** X18.  No request deletes a reservation or rewrites what it is about:
    every reservation committed before the request is still there after it,
    with the same order, product, store, quantity, deadline and creation
    time. *)
Theorem reservation_identity_is_stable o w rid r :
  reservations (committed w) !! rid = Some r ->
  ∃ r', reservations (committed (request o w).2) !! rid = Some r'
        ∧ order_id r' = order_id r ∧ product_id r' = product_id r
        ∧ store_id r' = store_id r ∧ quantity r' = quantity r
        ∧ expires_at r' = expires_at r ∧ created_at r' = created_at r.
Proof.
  intros Hr.
  destruct (request_reservations o w)
    as [He | [(r0 & Hnone & _ & He) | (rid0 & r0 & s & ct & cc & Hr0 & Hstep & He)]];
    rewrite He.
  - eauto 10.
  - destruct (decide (next_uuid w = rid)) as [<- | Hd]; [congruence|].
    rewrite lookup_insert_ne by done. eauto 10.
  - destruct (decide (rid0 = rid)) as [-> | Hd].
    + rewrite lookup_alter_eq, Hr. cbn. eexists. split; [reflexivity|].
      repeat split.
    + rewrite lookup_alter_ne by done. eauto 10.
Qed.

Lemma reservation_identity_is_stable_witness :
  let w := sample_world (sample_inventory 3 2 5 2)
             {[ "R" := pending_reservation ]} 1020 in
  ∃ r', reservations (committed (request (Cancel "R") w).2) !! "R" = Some r'
        ∧ quantity r' = 2.
Proof.
  intros w.
  destruct (reservation_identity_is_stable (Cancel "R") w "R" pending_reservation)
    as (r' & H1 & _ & _ & _ & H5 & _); [ vm_compute; reflexivity | ].
  exists r'. split; [exact H1 | exact H5].
Defined.

(** X19.  No request adds or removes an inventory row, and a request
    changes at most one of them: there is a key outside of which every row
    is what it was. *)
Theorem request_touches_one_row o w :
  dom (inventory (committed (request o w).2)) = dom (inventory (committed w))
  ∧ ∃ k, ∀ k', k' ≠ k ->
      inventory (committed (request o w).2) !! k' = inventory (committed w) !! k'.
Proof.
  destruct (request_inventory o w) as [He | (k & inv & inv' & Hk & _ & He)];
    rewrite He.
  - split; [reflexivity|]. exists ("", ""). reflexivity.
  - split.
    + rewrite dom_insert_L. apply elem_of_dom_2 in Hk.
      apply subseteq_union_1_L. by apply singleton_subseteq_l.
    + exists k. intros k' Hne. by rewrite lookup_insert_ne.
Qed.

(** A stock-in of five units on version 4 commits version 5, stamped with
    the clock. *)
Lemma request_bumps_version_witness :
  let w := sample_world (sample_inventory 10 2 12 4) ∅ 1000 in
  version (mkInventoryDB "inv-1" 15 2 17 5 1000) = 4 + 1
  ∧ last_updated (mkInventoryDB "inv-1" 15 2 17 5 1000) = 1000.
Proof.
  intros w.
  apply (request_bumps_version
           (UpdateStock (mkStockUpdate P S_ 5 "stock-in" None)) w (P, S_)
           (mkInventoryDB "inv-1" 10 2 12 4 0));
    [ vm_compute; reflexivity | vm_compute; reflexivity | discriminate ].
Defined.

(** ** The life of a reservation, request after request *)

Lemma confirm_success w rid r w2 :
  reservations (committed w) !! rid = Some r ->
  get_db (confirm_reservation rid) w = (Return true, w2) ->
  status r = PENDING
  ∧ inventory (committed w2) = inventory (committed w)
  ∧ reservations (committed w2) !! rid
    = Some (set_reservation_status CONFIRMED (Some (now w)) None r).
Proof.
  intros Hr H.
  assert (H1 : (get_db (confirm_reservation rid) w).1 = Return true)
    by (by rewrite H).
  assert (H2 : w2 = (get_db (confirm_reservation rid) w).2) by (by rewrite H).
  subst w2. clear H. revert H1.
  destruct w as [c s l lu bu pub t us n tr]. cbn in Hr.
  destruct bu, (status_eqb (status r) PENDING) eqn:Hs,
    (expires_at r <? t) eqn:Ht;
    unfold_m; run_with ltac:(unfold where_matches; rewrite ?Hr, ?Hs, ?Ht);
    try (intros H; discriminate H).
  - unfold run_inventory_update in *.
    destruct (inventory c !! (product_id r, store_id r)); step;
      intros H; discriminate H.
  - intros _. apply status_eqb_eq in Hs. repeat split; [done|].
    by rewrite lookup_alter_eq, Hr.
  - unfold run_inventory_update in *.
    destruct (inventory c !! (product_id r, store_id r)); step;
      intros H; discriminate H.
Qed.

Lemma consume_success w rid r inv w2 :
  reservations (committed w) !! rid = Some r ->
  inventory (committed w) !! (product_id r, store_id r) = Some inv ->
  get_db (consume_reservation rid) w = (Return true, w2) ->
  status r = CONFIRMED
  ∧ inventory (committed w2)
    = <[(product_id r, store_id r) := apply_values (consume_update r inv (now w)) inv]>
        (inventory (committed w))
  ∧ reservations (committed w2) !! rid
    = Some (set_reservation_status CONSUMED None None r).
Proof.
  intros Hr Hi H.
  assert (H1 : (get_db (consume_reservation rid) w).1 = Return true)
    by (by rewrite H).
  assert (H2 : w2 = (get_db (consume_reservation rid) w).2) by (by rewrite H).
  subst w2. clear H. revert H1.
  destruct w as [c s l lu bu pub t us n tr]. cbn in Hr, Hi.
  destruct bu, (status_eqb (status r) CONFIRMED) eqn:Hs;
    unfold_m;
    run_with ltac:(unfold where_matches; rewrite ?Hr, ?Hs, ?Hi, ?Z.eqb_refl);
    try (intros H; discriminate H).
  intros _. apply status_eqb_eq in Hs. repeat split; [done|].
  by rewrite lookup_alter_eq, Hr.
Qed.

(** X21.  A Reserve, the Confirm and the Consume of its reservation, each
    successful and with no other write to the database in between, leave
    the row with the available quantity of after the Reserve (the initial
    one minus [quantity]), the reserved quantity of before the Reserve, the
    total lowered by [quantity] and the version greater by exactly 2; the
    reservation ends CONSUMED. *)
Theorem reserve_confirm_consume w request resp w1 w1' w2 w2' w3 inv :
  let key := (req_product_id request, req_store_id request) in
  let rid := resp_reservation_id resp in
  inventory (committed w) !! key = Some inv ->
  get_db (reserve_stock request) w = (Return resp, w1) ->
  committed w1' = committed w1 ->
  get_db (confirm_reservation rid) w1' = (Return true, w2) ->
  committed w2' = committed w2 ->
  get_db (consume_reservation rid) w2' = (Return true, w3) ->
  ∃ inv' r',
    inventory (committed w3) !! key = Some inv'
    ∧ available_quantity inv' = available_quantity inv - req_quantity request
    ∧ reserved_quantity inv' = reserved_quantity inv
    ∧ total_quantity inv' = total_quantity inv - req_quantity request
    ∧ version inv' = version inv + 2
    ∧ reservations (committed w3) !! rid = Some r'
    ∧ status r' = CONSUMED
    ∧ confirmed_at r' = Some (now w1').
Proof.
  intros key rid Hi Hres Hs1 Hconf Hs2 Hcons.
  destruct (reserve_success _ _ _ _ _ Hi Hres) as (Hid & Hinv & Hrow).
  rewrite <- Hs1 in Hinv, Hrow. rewrite <- Hid in Hrow. fold rid in Hrow.
  destruct (confirm_success _ _ _ _ Hrow Hconf) as (_ & Hinv2 & Hrow2).
  rewrite <- Hs2 in Hinv2, Hrow2.
  eapply consume_success in Hcons;
    [ | exact Hrow2 | cbn; rewrite Hinv2, Hinv; apply lookup_insert_eq ].
  destruct Hcons as (_ & Hinv3 & Hrow3). cbn in Hinv3.
  eexists _, _. split; [ rewrite Hinv3; apply lookup_insert_eq | ].
  cbn. do 4 (split; [lia|]). split; [exact Hrow3|]. split; reflexivity.
Qed.

Lemma reserve_confirm_consume_witness :
  let w := sample_world (sample_inventory 5 0 5 1) ∅ 1000 in
  let request := mkReservationRequest "ORDER-1" P S_ 3 15 in
  let w1 := (get_db (reserve_stock request) w).2 in
  let w2 := (get_db (confirm_reservation "uuid-0") w1).2 in
  let w3 := (get_db (consume_reservation "uuid-0") w2).2 in
  ∃ inv', inventory (committed w3) !! (P, S_) = Some inv'
    ∧ available_quantity inv' = 5 - 3 ∧ reserved_quantity inv' = 0
    ∧ total_quantity inv' = 5 - 3 ∧ version inv' = 1 + 2.
Proof.
  intros w request w1 w2 w3.
  destruct (reserve_confirm_consume w request
              (mkReservationResponse "uuid-0" PENDING 1900 "Stock reserved successfully")
              w1 w1 w2 w2 w3 (mkInventoryDB "inv-1" 5 0 5 1 0))
    as (inv' & r' & H1 & H2 & H3 & H4 & H5 & _);
    [ vm_compute; reflexivity | vm_compute; reflexivity | reflexivity
    | vm_compute; reflexivity | reflexivity | vm_compute; reflexivity | ].
  exists inv'. repeat split; assumption.
Defined.

Lemma cancel_marks_cancelled w rid r w2 :
  reservations (committed w) !! rid = Some r ->
  get_db (cancel_reservation rid) w = (Return true, w2) ->
  reservations (committed w2) !! rid
  = Some (set_reservation_status CANCELLED None (Some (now w)) r).
Proof.
  intros Hr H.
  assert (H1 : (get_db (cancel_reservation rid) w).1 = Return true)
    by (by rewrite H).
  assert (H2 : w2 = (get_db (cancel_reservation rid) w).2) by (by rewrite H).
  subst w2. clear H. revert H1.
  destruct w as [c s l lu bu pub t us n tr]. cbn in Hr.
  destruct lu, bu, (cancellable (status r)) eqn:Hc;
    destruct (decide (lock_key_of (product_id r) (store_id r) ∈ l)) as [Hl | Hl];
    destruct (inventory c !! (product_id r, store_id r)) as [inv|] eqn:Hi;
    unfold_m;
    run_with ltac:(unfold where_matches;
                   rewrite ?decide_False, ?decide_True, ?Hr, ?Hi, ?Hc by done);
    intros H; try discriminate H;
    by rewrite lookup_alter_eq, Hr.
Qed.

(** X22.  Cancel also undoes a Reserve once it has been confirmed: after
    Reserve, Confirm and Cancel of the same reservation, each successful and
    with no other write to the database in between, the row has its
    available, reserved and total quantities of before the Reserve and a
    version greater by exactly 2, and the reservation ends CANCELLED with
    [cancelled_at] at the clock of the Cancel and [confirmed_at] at the
    clock of the Confirm. *)
Theorem reserve_confirm_cancel w request resp w1 w1' w2 w2' w3 inv :
  let key := (req_product_id request, req_store_id request) in
  let rid := resp_reservation_id resp in
  inventory (committed w) !! key = Some inv ->
  get_db (reserve_stock request) w = (Return resp, w1) ->
  committed w1' = committed w1 ->
  get_db (confirm_reservation rid) w1' = (Return true, w2) ->
  committed w2' = committed w2 ->
  get_db (cancel_reservation rid) w2' = (Return true, w3) ->
  ∃ inv' r',
    inventory (committed w3) !! key = Some inv'
    ∧ available_quantity inv' = available_quantity inv
    ∧ reserved_quantity inv' = reserved_quantity inv
    ∧ total_quantity inv' = total_quantity inv
    ∧ version inv' = version inv + 2
    ∧ reservations (committed w3) !! rid = Some r'
    ∧ status r' = CANCELLED
    ∧ cancelled_at r' = Some (now w2')
    ∧ confirmed_at r' = Some (now w1').
Proof.
  intros key rid Hi Hres Hs1 Hconf Hs2 Hcan.
  destruct (reserve_success _ _ _ _ _ Hi Hres) as (Hid & Hinv & Hrow).
  rewrite <- Hs1 in Hinv, Hrow. rewrite <- Hid in Hrow. fold rid in Hrow.
  destruct (confirm_success _ _ _ _ Hrow Hconf) as (_ & Hinv2 & Hrow2).
  rewrite <- Hs2 in Hinv2, Hrow2.
  pose proof (cancel_marks_cancelled _ _ _ _ Hrow2 Hcan) as Hrow3.
  eapply cancel_success in Hcan;
    [ | exact Hrow2 | cbn; rewrite Hinv2, Hinv; apply lookup_insert_eq ].
  cbn in Hcan.
  eexists _, _. split; [ rewrite Hcan; apply lookup_insert_eq | ].
  cbn. do 4 (split; [lia|]). split; [exact Hrow3|]. repeat split.
Qed.

Lemma reserve_confirm_cancel_witness :
  let w := sample_world (sample_inventory 5 0 5 1) ∅ 1000 in
  let request := mkReservationRequest "ORDER-1" P S_ 3 15 in
  let w1 := (get_db (reserve_stock request) w).2 in
  let w2 := (get_db (confirm_reservation "uuid-0") w1).2 in
  let w3 := (get_db (cancel_reservation "uuid-0") w2).2 in
  ∃ inv' r', inventory (committed w3) !! (P, S_) = Some inv'
    ∧ available_quantity inv' = 5 ∧ reserved_quantity inv' = 0
    ∧ total_quantity inv' = 5 ∧ version inv' = 1 + 2
    ∧ reservations (committed w3) !! "uuid-0" = Some r'
    ∧ status r' = CANCELLED.
Proof.
  intros w request w1 w2 w3.
  destruct (reserve_confirm_cancel w request
              (mkReservationResponse "uuid-0" PENDING 1900 "Stock reserved successfully")
              w1 w1 w2 w2 w3 (mkInventoryDB "inv-1" 5 0 5 1 0))
    as (inv' & r' & H1 & H2 & H3 & H4 & H5 & H6 & H7 & _);
    [ vm_compute; reflexivity | vm_compute; reflexivity | reflexivity
    | vm_compute; reflexivity | reflexivity | vm_compute; reflexivity | ].
  exists inv', r'. repeat split; assumption.
Defined.

(** ** Cancel *)

(** X23.  Cancel of a PENDING or CONFIRMED reservation on a free lock, with
    its inventory row present and a working broker, gives the quantity back
    (available plus, reserved minus, total untouched, version plus one),
    marks the reservation CANCELLED with [cancelled_at] at the clock, commits
    and leaves the lock free. *)
Theorem cancel_happy_path w rid r inv :
  reservations (committed w) !! rid = Some r ->
  cancellable (status r) = true ->
  inventory (committed w) !! (product_id r, store_id r) = Some inv ->
  lock_service_up w = true ->
  lock_key_of (product_id r) (store_id r) ∉ locks w ->
  event_bus_up w = true ->
  let res := get_db (cancel_reservation rid) w in
  res.1 = Return true
  ∧ inventory (committed res.2) !! (product_id r, store_id r)
    = Some (mkInventoryDB (inv_id inv)
              (available_quantity inv + quantity r)
              (reserved_quantity inv + - quantity r)
              (total_quantity inv) (version inv + 1) (now w))
  ∧ reservations (committed res.2) !! rid
    = Some (mkReservationDB (order_id r) (product_id r) (store_id r) (quantity r)
              CANCELLED (expires_at r) (created_at r) (confirmed_at r)
              (Some (now w)))
  ∧ locks res.2 = locks w
  ∧ http_status (get_db (api_cancel_reservation rid) w).1 = 200.
Proof.
  intros Hr Hs Hi Hup Hfree Hb. destruct w as [c s l lu bu pub t us n tr].
  cbn in Hr, Hi, Hup, Hfree, Hb. subst lu bu.
  unfold_m.
  run_with ltac:(unfold where_matches; rewrite ?decide_False, ?Hr, ?Hs, ?Hi by done).
  repeat split;
    [ apply lookup_insert_eq | by rewrite lookup_alter_eq, Hr
    | by apply release_after_acquire ].
Qed.

Lemma cancel_happy_path_witness :
  let w := sample_world (sample_inventory 3 2 5 2)
             {[ "R" := pending_reservation ]} 1020 in
  let res := get_db (cancel_reservation "R") w in
  res.1 = Return true
  ∧ inventory (committed res.2) !! (P, S_)
    = Some (mkInventoryDB "inv-1" 5 0 5 3 1020).
Proof.
  intros w res.
  destruct (cancel_happy_path w "R" pending_reservation
              (mkInventoryDB "inv-1" 3 2 5 2 0)) as (H1 & H2 & _);
    [ vm_compute; reflexivity | reflexivity | vm_compute; reflexivity
    | reflexivity | vm_compute; set_solver | reflexivity | ].
  split; [exact H1 | exact H2].
Defined.

(** X24.  Cancel on a key that is held, or with the lock service down, is
    refused with the plain exception "Could not acquire inventory lock",
    which the route turns into a 500; nothing is committed and the
    reservation keeps its status.  Its [finally] block deletes the key of
    the other holder when the service is up. *)
Theorem cancel_lock_unavailable w rid r :
  let key := lock_key_of (product_id r) (store_id r) in
  reservations (committed w) !! rid = Some r ->
  cancellable (status r) = true ->
  lock_service_up w = false ∨ key ∈ locks w ->
  let res := get_db (cancel_reservation rid) w in
  res.1 = Raise (PlainException "Could not acquire inventory lock")
  ∧ committed res.2 = committed w
  ∧ locks res.2 = (if lock_service_up w then locks w ∖ {[key]} else locks w)
  ∧ http_status (get_db (api_cancel_reservation rid) w).1 = 500.
Proof.
  intros key Hr Hs H. subst key.
  destruct w as [c s l lu bu pub t us n tr]. cbn in Hr, H.
  destruct lu.
  - destruct H as [H | H]; [discriminate|].
    unfold_m. run_with ltac:(rewrite ?decide_True, ?Hr, ?Hs by done).
    by repeat split.
  - unfold_m. run_with ltac:(rewrite ?Hr, ?Hs by done). by repeat split.
Qed.

Lemma cancel_lock_unavailable_witness :
  let w := held_elsewhere
             (sample_world (sample_inventory 3 2 5 2)
                {[ "R" := confirmed_reservation ]} 1020) in
  (get_db (cancel_reservation "R") w).1
    = Raise (PlainException "Could not acquire inventory lock")
  ∧ committed (get_db (cancel_reservation "R") w).2 = committed w.
Proof.
  intros w.
  destruct (cancel_lock_unavailable w "R" confirmed_reservation)
    as (H1 & H2 & _);
    [ vm_compute; reflexivity | reflexivity | right; vm_compute; set_solver | ].
  split; [exact H1 | exact H2].
Defined.

(** ** Request schemas *)

Lemma append_cons a (s t : string) : String a s +:+ t = String a (s +:+ t).
Proof. reflexivity. Qed.

Lemma append_nil_r (s : string) : s +:+ EmptyString = s.
Proof. induction s as [|a s IH]; [done|]. by rewrite append_cons, IH. Qed.

Lemma length_app_string (s1 s2 : string) :
  String.length (s1 +:+ s2) = (String.length s1 + String.length s2)%nat.
Proof.
  induction s1 as [|a s1 IH]; [done|]. rewrite append_cons. cbn. by rewrite IH.
Qed.

Lemma one_or_more_at_end p s :
  one_or_more p at_end s = true
  ↔ ∃ body, body ≠ EmptyString ∧ string_forall p body = true
            ∧ (s = body ∨ s = body +:+ String newline EmptyString).
Proof.
  induction s as [|a s IH]; cbn.
  - split; [done|]. intros (body & Hne & _ & [H | H]); [by subst|].
    by destruct body.
  - rewrite andb_true_iff, orb_true_iff, IH. split.
    + intros [Hp [(body & Hne & Hall & Hs) | He]].
      * exists (String a body). cbn. rewrite Hp, Hall.
        split; [done|]. split; [done|]. destruct Hs as [-> | ->]; auto.
      * exists (String a EmptyString). cbn. rewrite Hp.
        split; [done|]. split; [done|].
        destruct s as [|b [|]]; [by left | | done].
        apply Ascii.eqb_eq in He as ->. by right.
    + intros (body & Hne & Hall & Hs).
      destruct body as [|b body]; [done|]. cbn in Hall.
      apply andb_true_iff in Hall as [Hp Hall].
      assert (a = b ∧ (s = body ∨ s = body +:+ String newline EmptyString))
        as [-> Hs'].
      { destruct Hs as [Hs | Hs]; rewrite ?append_cons in Hs; simplify_eq; auto. }
      split; [done|].
      destruct body as [|c body].
      * right. destruct Hs' as [-> | ->]; cbn; [done | apply Ascii.eqb_refl].
      * left. exists (String c body). done.
Qed.

Lemma exactly_spec p n s s' :
  exactly p n s = Some s'
  ↔ ∃ g, s = g +:+ s' ∧ String.length g = n ∧ string_forall p g = true.
Proof.
  revert s. induction n as [|n IH]; intros s; cbn.
  - split.
    + intros [= ->]. by exists EmptyString.
    + intros (g & -> & Hl & _). by destruct g.
  - destruct s as [|a s].
    + split; [done|]. intros (g & Hs & Hl & _). by destruct g.
    + destruct (p a) eqn:Hp.
      * rewrite IH. split.
        -- intros (g & -> & Hl & Hall). exists (String a g). cbn.
           by rewrite Hp, Hall, Hl.
        -- intros (g & Hs & Hl & Hall). destruct g as [|b g]; [done|].
           rewrite append_cons in Hs. cbn in Hl, Hall. simplify_eq. rewrite Hp in Hall.
           by exists g.
      * split; [done|]. intros (g & Hs & Hl & Hall).
        destruct g as [|b g]; [done|]. rewrite append_cons in Hs.
        cbn in Hall. simplify_eq.
        by rewrite Hp in Hall.
Qed.

Lemma at_end_spec s :
  at_end s = true ↔ s = EmptyString ∨ s = String newline EmptyString.
Proof.
  destruct s as [|a [|b s]]; cbn.
  - by split; [left|].
  - rewrite Ascii.eqb_eq. split; [intros ->; by right | by intros [|[= ->]]].
  - by split; [|intros [|]].
Qed.

(** X25.  The schema accepts an [order_id] exactly when it has 1 to 50
    characters and consists of one or more characters of [[A-Z0-9-_]],
    possibly followed by one newline: [$] also matches just before a newline
    that ends the string. *)
Theorem order_id_accepted_iff v :
  order_id_field v = true
  ↔ (1 ≤ String.length v ≤ 50)%nat
    ∧ ∃ body, body ≠ EmptyString ∧ string_forall order_id_class body = true
              ∧ (v = body ∨ v = body +:+ String newline EmptyString).
Proof.
  unfold order_id_field, length_between, validate_order_id, re_match,
    ORDER_ID_PATTERN. cbn [match_items].
  rewrite !andb_true_iff, !Nat.leb_le.
  change (one_or_more order_id_class (match_items []) v)
    with (one_or_more order_id_class at_end v).
  by rewrite one_or_more_at_end.
Qed.

(** X26.  The schema accepts a product, store or reservation identifier
    exactly when it is five groups of 8, 4, 4, 4 and 12 characters of
    [[a-f0-9]] joined by hyphens; the bound of 36 characters rules out the
    trailing newline the pattern alone would let through. *)
Theorem uuid_accepted_iff v :
  uuid_field v = true
  ↔ ∃ g1 g2 g3 g4 g5,
      v = g1 +:+ "-" +:+ g2 +:+ "-" +:+ g3 +:+ "-" +:+ g4 +:+ "-" +:+ g5
      ∧ String.length g1 = 8%nat ∧ String.length g2 = 4%nat
      ∧ String.length g3 = 4%nat ∧ String.length g4 = 4%nat
      ∧ String.length g5 = 12%nat
      ∧ string_forall hex_class g1 = true ∧ string_forall hex_class g2 = true
      ∧ string_forall hex_class g3 = true ∧ string_forall hex_class g4 = true
      ∧ string_forall hex_class g5 = true.
Proof.
  unfold uuid_field, length_between, validate_uuid_format, re_match, UUID_PATTERN.
  rewrite !andb_true_iff, !Nat.leb_le. split.
  - intros [Hlen Hm]. cbn [match_items] in Hm.
    repeat match type of Hm with
    | match exactly ?p ?n ?s with _ => _ end = true =>
        let E := fresh "E" in let r := fresh "r" in
        destruct (exactly p n s) as [r|] eqn:E; [|done];
        apply exactly_spec in E
    end.
    apply at_end_spec in Hm.
    destruct E as (g1 & -> & L1 & A1), E0 as (h1 & -> & M1 & B1),
      E1 as (g2 & -> & L2 & A2), E2 as (h2 & -> & M2 & B2),
      E3 as (g3 & -> & L3 & A3), E4 as (h3 & -> & M3 & B3),
      E5 as (g4 & -> & L4 & A4), E6 as (h4 & -> & M4 & B4),
      E7 as (g5 & -> & L5 & A5).
    assert (Hh : ∀ h, String.length h = 1%nat → string_forall hyphen h = true
                      → h = "-"%string).
    { intros [|a [|]] Hl Ha; try done. cbn in Ha. rewrite andb_true_r in Ha.
      by apply Ascii.eqb_eq in Ha as ->. }
    apply Hh in B1, B2, B3, B4; try done. subst h1 h2 h3 h4.
    destruct Hm as [-> | ->].
    + exists g1, g2, g3, g4, g5.
      rewrite append_nil_r. done.
    + exfalso. rewrite !length_app_string in Hlen. cbn in Hlen. lia.
  - intros (g1 & g2 & g3 & g4 & g5 & -> & L1 & L2 & L3 & L4 & L5
            & A1 & A2 & A3 & A4 & A5).
    split.
    + rewrite !length_app_string. cbn. lia.
    + cbn [match_items].
      assert (Hx : ∀ p n g s, String.length g = n → string_forall p g = true
                              → exactly p n (g +:+ s) = Some s).
      { intros p n g s Hl Ha. apply exactly_spec. by exists g. }
      rewrite (Hx hex_class 8%nat g1) by done.
      rewrite (Hx hyphen 1%nat "-"%string) by done.
      rewrite (Hx hex_class 4%nat g2) by done.
      rewrite (Hx hyphen 1%nat "-"%string) by done.
      rewrite (Hx hex_class 4%nat g3) by done.
      rewrite (Hx hyphen 1%nat "-"%string) by done.
      rewrite (Hx hex_class 4%nat g4) by done.
      rewrite (Hx hyphen 1%nat "-"%string) by done.
      rewrite <- (append_nil_r g5) at 1.
      by rewrite (Hx hex_class 12%nat g5).
Qed.

(** X27.  On a body the schema accepts, building the [ReservationRequest]
    in the route cannot fail: the quantity is between 1 and 100, the
    time-to-live between 1 and 60, and the route runs the service on the
    body's fields. *)
Theorem accepted_body_reaches_the_service b w :
  validate_ReservationRequestSchema b = true ->
  let request := mkReservationRequest (rrs_order_id b) (rrs_product_id b)
                   (rrs_store_id b) (rrs_quantity b) (rrs_ttl_minutes b) in
  valid_request request = true
  ∧ 1 ≤ req_quantity request ≤ 100
  ∧ post_reserve b w = api_reserve_stock request w.
Proof.
  intros Hv request.
  unfold validate_ReservationRequestSchema, validate_quantity in Hv.
  rewrite !andb_true_iff in Hv.
  destruct Hv as (((((((_ & _) & _) & Hq) & Hq') & _) & Ht) & Ht').
  assert (Hr : valid_request request = true).
  { unfold valid_request, request. cbn. by rewrite Hq, Ht, Ht'. }
  split; [exact Hr|]. split; [cbn; lia|].
  unfold post_reserve, api_reserve_stock, build_ReservationRequest.
  fold request. rewrite Hr. reflexivity.
Qed.

Lemma accepted_body_reaches_the_service_witness :
  let b := mkReservationRequestSchema "ORDER-12345"
             "123e4567-e89b-12d3-a456-426614174000"
             "123e4567-e89b-12d3-a456-426614174001" 2 15 in
  valid_request (mkReservationRequest (rrs_order_id b) (rrs_product_id b)
                   (rrs_store_id b) (rrs_quantity b) (rrs_ttl_minutes b)) = true.
Proof.
  intros b.
  destruct (accepted_body_reaches_the_service b
              (sample_world (sample_inventory 5 0 5 1) ∅ 1000)) as [H _];
    [ vm_compute; reflexivity | exact H ].
Defined.
